(** * Adler-32: the scalar, block-batched and NEON engines

    A shallow embedding of the three C translation units of the repository,
    [adler32_simple.c], [adler32_block.c] and [adler32_neon.c], each of which
    defines the same entry point [adler32_neon (data, len)].

    C integers are unbounded [Z] values with the wrap-around of their type
    written out at every operation that can leave the type's range.  The
    input buffer is a list of bytes and [len] is its length.  *)

From Stdlib Require Import ZArith List Lia Bool.
From Stdlib Require Import Init.Byte Strings.Byte.
Import ListNotations.

Local Open Scope Z_scope.

(** ** Machine integers *)

(** Reduction of an unbounded integer to an unsigned [w]-bit one. *)
Definition wrap (w x : Z) : Z := x mod 2 ^ w.

(** [uint32_t] arithmetic. *)
Definition u32 (x : Z) : Z := wrap 32 x.

(** [#define MOD_ADLER 65521] (the three files agree on it). *)
Definition MOD_ADLER : Z := 65521.

(** ** Buffers *)

(** The value of a [uint8_t]. *)
Definition byte_val (b : byte) : Z := Z.of_N (Byte.to_N b).

(** [data[i]].  Reading outside the buffer is undefined behaviour in C; the
    model yields 0 there.  The engines only read below [len]. *)
Definition load (data : list byte) (i : Z) : Z :=
  byte_val (nth (Z.to_nat i) data x00).

(** The [len] argument that goes with a buffer. *)
Definition size (data : list byte) : Z := Z.of_nat (length data).

(** ** Loops *)

(** [while (cond) body], unrolled at most [fuel] times. Every use below
    passes a [fuel] that covers the loop's trip count, see [while_exit]. *)
Fixpoint while {St : Type} (fuel : nat) (cond : St -> bool)
    (body : St -> St) (s : St) : St :=
  match fuel with
  | O => s
  | S fuel' => if cond s then while fuel' cond body (body s) else s
  end.

(** [for (i = lo; i < hi; ++i) body], the loop variable kept apart from the
    rest of the state. *)
Definition for_range {St : Type} (lo hi : Z) (body : Z -> St -> St)
    (s : St) : St :=
  snd (while (Z.to_nat (hi - lo))
             (fun p => fst p <? hi)
             (fun p => (fst p + 1, body (fst p) (snd p)))
             (lo, s)).

(** ** The accumulator pair *)

Record sums : Type := Sums { s1 : Z; s2 : Z }.

(** [return (s2 << 16) | s1;] on [uint32_t] operands. *)
Definition pack (a : sums) : Z :=
  Z.lor (u32 (Z.shiftl (s2 a) 16)) (s1 a).

(** The seed [s1 = 1, s2 = 0]. *)
Definition seed : sums := Sums 1 0.

(** [s1 = (s1 + b) % MOD_ADLER; s2 = (s2 + s1) % MOD_ADLER;] *)
Definition mod_step (b : Z) (a : sums) : sums :=
  let s1' := u32 (s1 a + b) mod MOD_ADLER in
  let s2' := u32 (s2 a + s1') mod MOD_ADLER in
  Sums s1' s2'.

(** [s1 += b; s2 += s1;] *)
Definition raw_step (b : Z) (a : sums) : sums :=
  let s1' := u32 (s1 a + b) in
  let s2' := u32 (s2 a + s1') in
  Sums s1' s2'.

(** [s1 %= MOD_ADLER; s2 %= MOD_ADLER;] *)
Definition reduce (a : sums) : sums :=
  Sums (s1 a mod MOD_ADLER) (s2 a mod MOD_ADLER).

(** ** adler32_simple.c *)

Module Simple.

Definition adler32_neon (data : list byte) : Z :=
  let len := size data in
  let a := seed in
  (* for (size_t i = 0; i < len; i++) *)
  let a := for_range 0 len (fun i a => mod_step (load data i) a) a in
  pack a.

End Simple.

(** ** adler32_block.c *)

Module Block.

Definition BLOCK_SIZE : Z := 5552.

(** Body of [for (size_t block = 0; block < blocks; ++block)]. *)
Definition block_pass (data : list byte) (block : Z) (a : sums) : sums :=
  (* block_data = data + block * BLOCK_SIZE *)
  let block_data := block * BLOCK_SIZE in
  (* for (i = 0; i < BLOCK_SIZE; ++i) *)
  let a :=
    for_range 0 BLOCK_SIZE
      (fun i a => raw_step (load data (block_data + i)) a) a in
  reduce a.

Definition adler32_neon (data : list byte) : Z :=
  let len := size data in
  let a := seed in
  if len <? 16 then
    (* for (i = 0; i < len; ++i) *)
    let a := for_range 0 len (fun i a => mod_step (load data i) a) a in
    pack a
  else
    let blocks := len / BLOCK_SIZE in
    let remaining := len mod BLOCK_SIZE in
    let a := for_range 0 blocks (block_pass data) a in
    (* remaining_data = data + blocks * BLOCK_SIZE *)
    let remaining_data := blocks * BLOCK_SIZE in
    (* for (i = 0; i < remaining; ++i) *)
    let a :=
      for_range 0 remaining
        (fun i a => raw_step (load data (remaining_data + i)) a) a in
    pack (reduce a).

End Block.

(** ** adler32_neon.c *)

Module Neon.

(** *** The [arm_neon.h] intrinsics the file uses

    A vector is the list of its lanes, lane 0 first, each lane an unsigned
    integer of the lane width.  The intrinsics belong to the compiler's
    header and are given their architectural meaning. *)

Definition uint8x16_t : Type := list Z.
Definition uint8x8_t : Type := list Z.
Definition uint16x8_t : Type := list Z.
Definition uint16x4_t : Type := list Z.
Definition uint32x4_t : Type := list Z.

(** Lane-wise binary operation. *)
Fixpoint lanewise (f : Z -> Z -> Z) (a b : list Z) : list Z :=
  match a, b with
  | x :: a', y :: b' => f x y :: lanewise f a' b'
  | _, _ => []
  end.

Definition vdupq_n_u32 (x : Z) : uint32x4_t := [x; x; x; x].

(** Load 16 consecutive bytes starting at [data + i]. *)
Definition vld1q_u8 (data : list byte) (i : Z) : uint8x16_t :=
  map (fun k => load data (i + k))
      [0; 1; 2; 3; 4; 5; 6; 7; 8; 9; 10; 11; 12; 13; 14; 15].

Definition vget_low_u8 (v : uint8x16_t) : uint8x8_t := firstn 8 v.
Definition vget_high_u8 (v : uint8x16_t) : uint8x8_t := skipn 8 v.
Definition vget_low_u16 (v : uint16x8_t) : uint16x4_t := firstn 4 v.
Definition vget_high_u16 (v : uint16x8_t) : uint16x4_t := skipn 4 v.

(** Widening moves zero-extend every lane: the values are unchanged. *)
Definition vmovl_u8 (v : uint8x8_t) : uint16x8_t := v.
Definition vmovl_u16 (v : uint16x4_t) : uint32x4_t := v.

Definition vaddq_u32 (a b : uint32x4_t) : uint32x4_t :=
  lanewise (fun x y => u32 (x + y)) a b.
Definition vmulq_u32 (a b : uint32x4_t) : uint32x4_t :=
  lanewise (fun x y => u32 (x * y)) a b.
Definition vgetq_lane_u32 (v : uint32x4_t) (k : nat) : Z := nth k v 0.

(** *** The function *)

Definition BLOCK_SIZE : Z := 5552.
Definition NEON_CHUNK_SIZE : Z := 16.

(** The multipliers the function sets up; it goes on to use [v_16], [v_12],
    [v_8] and [v_4] only. *)
Definition v_16 := vdupq_n_u32 16.
Definition v_15 := vdupq_n_u32 15.
Definition v_14 := vdupq_n_u32 14.
Definition v_13 := vdupq_n_u32 13.
Definition v_12 := vdupq_n_u32 12.
Definition v_11 := vdupq_n_u32 11.
Definition v_10 := vdupq_n_u32 10.
Definition v_9 := vdupq_n_u32 9.
Definition v_8 := vdupq_n_u32 8.
Definition v_7 := vdupq_n_u32 7.
Definition v_6 := vdupq_n_u32 6.
Definition v_5 := vdupq_n_u32 5.
Definition v_4 := vdupq_n_u32 4.
Definition v_3 := vdupq_n_u32 3.
Definition v_2 := vdupq_n_u32 2.
Definition v_1 := vdupq_n_u32 1.

(** The variables of the function that live across super-blocks. *)
Record vars : Type := Vars { i : Z; len : Z; acc : sums }.

(** The variables of one super-block. [idx] is the function's [i]. *)
Record lanes : Type :=
  Lanes { idx : Z; block_len : Z; block_s1 : uint32x4_t; block_s2 : uint32x4_t }.

(** Body of [while (block_len >= NEON_CHUNK_SIZE)]. *)
Definition chunk_body (data : list byte) (c : lanes) : lanes :=
  let v_data := vld1q_u8 data (idx c) in
  let v_data1 := vmovl_u16 (vget_low_u16 (vmovl_u8 (vget_low_u8 v_data))) in
  let v_data2 := vmovl_u16 (vget_high_u16 (vmovl_u8 (vget_low_u8 v_data))) in
  let v_data3 := vmovl_u16 (vget_low_u16 (vmovl_u8 (vget_high_u8 v_data))) in
  let v_data4 := vmovl_u16 (vget_high_u16 (vmovl_u8 (vget_high_u8 v_data))) in
  let bs1 := block_s1 c in
  let bs1 := vaddq_u32 bs1 v_data1 in
  let bs1 := vaddq_u32 bs1 v_data2 in
  let bs1 := vaddq_u32 bs1 v_data3 in
  let bs1 := vaddq_u32 bs1 v_data4 in
  let bs2 := block_s2 c in
  let bs2 := vaddq_u32 bs2 (vmulq_u32 v_data1 v_16) in
  let bs2 := vaddq_u32 bs2 (vmulq_u32 v_data2 v_12) in
  let bs2 := vaddq_u32 bs2 (vmulq_u32 v_data3 v_8) in
  let bs2 := vaddq_u32 bs2 (vmulq_u32 v_data4 v_4) in
  Lanes (idx c + NEON_CHUNK_SIZE) (block_len c - NEON_CHUNK_SIZE) bs1 bs2.

(** The four-lane horizontal sum, in [uint32_t]. *)
Definition hsum (v : uint32x4_t) : Z :=
  u32 (u32 (u32 (vgetq_lane_u32 v 0 + vgetq_lane_u32 v 1)
            + vgetq_lane_u32 v 2)
       + vgetq_lane_u32 v 3).

(** The inner loop of one super-block, entered at buffer index [i0]. *)
Definition chunk_loop (data : list byte) (i0 : Z) : lanes :=
  while (Z.to_nat BLOCK_SIZE)
        (fun c => NEON_CHUNK_SIZE <=? block_len c)
        (chunk_body data)
        (Lanes i0 BLOCK_SIZE (vdupq_n_u32 0) (vdupq_n_u32 0)).

(** The two scalar updates that close a super-block.  [BLOCK_SIZE] is a
    [size_t], so the sum for [s2] is [uint32_t] up to [s2 + sum_s2] and
    [size_t] from there on; [w] is the width of [size_t] in bits. *)
Definition fold_block (w : Z) (a : sums) (sum_s1 sum_s2 : Z) : sums :=
  (* s1 = (s1 + sum_s1) % MOD_ADLER; *)
  let s1' := u32 (s1 a + sum_s1) mod MOD_ADLER in
  (* s2 = (s2 + sum_s2 + BLOCK_SIZE * s1
            - sum_s1 * (BLOCK_SIZE + 1) / 2) % MOD_ADLER; *)
  let s2' :=
    u32 (wrap w (wrap w (u32 (s2 a + sum_s2) + wrap w (BLOCK_SIZE * s1'))
                 - wrap w (sum_s1 * wrap w (BLOCK_SIZE + 1)) / 2)
         mod MOD_ADLER) in
  Sums s1' s2'.

(** Body of [while (len >= BLOCK_SIZE)]. *)
Definition block_body (w : Z) (data : list byte) (v : vars) : vars :=
  let c := chunk_loop data (i v) in
  let sum_s1 := hsum (block_s1 c) in
  let sum_s2 := hsum (block_s2 c) in
  let a := fold_block w (acc v) sum_s1 sum_s2 in
  Vars (idx c) (len v - BLOCK_SIZE) a.

(** The state in which the function reaches its scalar tail loop. *)
Definition block_loop (w : Z) (data : list byte) : vars :=
  let v := Vars 0 (size data) seed in
  if 16 <=? size data then
    while (length data) (fun v => BLOCK_SIZE <=? len v) (block_body w data) v
  else v.

Definition adler32_neon (w : Z) (data : list byte) : Z :=
  if size data =? 0 then 1
  else
    let v := block_loop w data in
    (* while (i < len) { ...; i++; } *)
    let a :=
      for_range (i v) (len v) (fun i a => mod_step (load data i) a) (acc v) in
    pack a.

End Neon.

(** ** Reference definitions *)

(** A byte loop seen as a fold over the bytes it visits. *)
Definition run (step : Z -> sums -> sums) (l : list byte) (a : sums) : sums :=
  fold_left (fun a b => step (byte_val b) a) l a.

(** [s1 += b; s2 += s1] on unbounded integers: what [raw_step] computes as
    long as nothing wraps. *)
Definition exact_step (b : Z) (a : sums) : sums :=
  Sums (s1 a + b) (s2 a + (s1 a + b)).

(** Both accumulators are below the modulus. *)
Definition reduced (a : sums) : Prop :=
  0 <= s1 a < MOD_ADLER /\ 0 <= s2 a < MOD_ADLER.

(** The recurrence as section 4.1 of the specification words it, on
    mathematical integers: [s1 = (s1 + b) mod 65521],
    [s2 = (s2 + s1) mod 65521]. *)
Definition spec_step (b : Z) (a : sums) : sums :=
  let s1' := (s1 a + b) mod 65521 in
  let s2' := (s2 a + s1') mod 65521 in
  Sums s1' s2'.

(** The packed Adler-32 checksum of section 4.1: seed [s1 = 1, s2 = 0],
    bytes folded left to right, result [(s2 << 16) | s1]. *)
Definition adler32_spec (l : list byte) : Z :=
  let a := fold_left (fun a b => spec_step (byte_val b) a) l (Sums 1 0) in
  Z.lor (Z.shiftl (s2 a) 16) (s1 a).

(** The policy of section 4.2 in the specification's words: the input is
    cut into chunks of at most 5552 bytes, the last one possibly partial;
    within a chunk the bytes are accumulated unreduced, and both sums are
    reduced once at the end of every chunk. *)
Fixpoint chunks (fuel : nat) (l : list byte) : list (list byte) :=
  match fuel with
  | O => []
  | S fuel' =>
      match l with
      | [] => []
      | _ :: _ =>
          firstn (Z.to_nat 5552) l :: chunks fuel' (skipn (Z.to_nat 5552) l)
      end
  end.

Definition batched_spec (l : list byte) : Z :=
  pack (fold_left (fun a chunk => reduce (run raw_step chunk a))
                  (chunks (length l) l) seed).

(** What one 16-byte chunk at [data + i0] adds to a cleared [block_s2],
    summed over the four lanes. *)
Definition chunk_weighted (data : list byte) (i0 : Z) : Z :=
  Neon.hsum
    (Neon.block_s2
       (Neon.chunk_body data
          (Neon.Lanes i0 Neon.NEON_CHUNK_SIZE
             (Neon.vdupq_n_u32 0) (Neon.vdupq_n_u32 0)))).

(** [sum over k in 0..15 of byte[k] * weight(k)] for the chunk at [i0]. *)
Definition weighted_sum (weight : Z -> Z) (data : list byte) (i0 : Z) : Z :=
  fold_right (fun k acc => load data (i0 + k) * weight k + acc) 0
             [0; 1; 2; 3; 4; 5; 6; 7; 8; 9; 10; 11; 12; 13; 14; 15].

(** The weight of section 4.3, [W - k] with [W = 16]. *)
Definition spec_weight (k : Z) : Z := 16 - k.

(** The weight the four multiplications of [adler32_neon.c] give position
    [k]: one multiplier for each group of four bytes. *)
Definition lane_group_weight (k : Z) : Z := 16 - 4 * (k / 4).

(** The update of [s2] that closes a super-block, in the words of section
    4.3: [(s2 + block_s2 + block_len * s1_entering
           - block_s1 * (block_len + 1) / 2) mod 65521]. *)
Definition spec_s2_update (s2 block_s2 block_len s1_entering block_s1 : Z) : Z :=
  (s2 + block_s2 + block_len * s1_entering - block_s1 * (block_len + 1) / 2)
  mod 65521.

(** The externally observable invariant of section 3 read off a packed
    result: its low and its high 16 bits are both below the modulus. *)
Definition halves_reduced (r : Z) : Prop :=
  0 <= Z.land r 65535 < 65521 /\ 0 <= Z.shiftr r 16 < 65521.

(** Test buffers. *)
Definition wikipedia : list byte := [x57; x69; x6b; x69; x70; x65; x64; x69; x61].
Definition zeros (n : Z) : list byte := repeat x00 (Z.to_nat n).
Definition ffs (n : Z) : list byte := repeat xff (Z.to_nat n).

(** 5552 bytes of value 255, the overflow-boundary buffer of section 8. *)
Definition all_ff : list byte := ffs 5552.

(** One super-block: a byte 1 followed by 5551 zero bytes. *)
Definition one_then_zeros : list byte := x01 :: zeros 5551.

(** The same super-block followed by one trailing byte 1. *)
Definition one_zeros_one : list byte := one_then_zeros ++ [x01].

(** One vector chunk whose only non-zero byte is at position 1. *)
Definition chunk_e1 : list byte :=
  [x00; x01; x00; x00; x00; x00; x00; x00; x00; x00; x00; x00; x00; x00; x00; x00].

(** The two halves of a packed result. *)
Definition low16 (r : Z) : Z := Z.land r 65535.
Definition high16 (r : Z) : Z := Z.shiftr r 16.

(** The sum of the bytes of a buffer. *)
Definition byte_sum (l : list byte) : Z :=
  fold_right (fun b acc => byte_val b + acc) 0 l.

(** The sum of the bytes of a buffer, each counted once for itself and once
    for every byte after it: the first byte [length l] times, the last
    byte once. *)
Fixpoint tri_sum (l : list byte) : Z :=
  match l with
  | [] => 0
  | b :: l' => (Z.of_nat (length l') + 1) * byte_val b + tri_sum l'
  end.

(** [weighted_sum weight] added up over the first [n] chunks of the
    super-block that starts at [data + i0]. *)
Fixpoint block_sum (weight : Z -> Z) (data : list byte) (i0 : Z) (n : nat) : Z :=
  match n with
  | O => 0
  | S k =>
      block_sum weight data i0 k
      + weighted_sum weight data (i0 + 16 * Z.of_nat k)
  end.

(** * Properties *)

(** ** Loops *)

Lemma while_inv {St : Type} (P : St -> Prop) (cond : St -> bool)
    (body : St -> St) :
  (forall s, P s -> cond s = true -> P (body s)) ->
  forall fuel s, P s -> P (while fuel cond body s).
Proof.
  intros Hstep fuel.
  induction fuel as [|fuel IH]; intros s Hs; simpl; [exact Hs|].
  destruct (cond s) eqn:Hc; [apply IH, Hstep; assumption | exact Hs].
Qed.

(** A loop whose fuel covers a decreasing measure leaves through its guard. *)
Lemma while_exit {St : Type} (m : St -> nat) (cond : St -> bool)
    (body : St -> St) :
  (forall s, cond s = true -> (m (body s) < m s)%nat) ->
  forall fuel s, (m s <= fuel)%nat -> cond (while fuel cond body s) = false.
Proof.
  intros Hdec fuel.
  induction fuel as [|fuel IH]; intros s Hm; simpl.
  - destruct (cond s) eqn:Hc; [|reflexivity].
    specialize (Hdec s Hc). lia.
  - destruct (cond s) eqn:Hc; [|exact Hc].
    apply IH. specialize (Hdec s Hc). lia.
Qed.

(** Fuel beyond the trip count changes nothing. *)
Lemma while_more_fuel {St : Type} (cond : St -> bool) (body : St -> St) :
  forall fuel extra s,
    cond (while fuel cond body s) = false ->
    while (fuel + extra) cond body s = while fuel cond body s.
Proof.
  induction fuel as [|fuel IH]; intros extra s Hx; simpl in *.
  - destruct extra; simpl; [reflexivity|]. rewrite Hx. reflexivity.
  - destruct (cond s) eqn:Hc; [apply IH; exact Hx | reflexivity].
Qed.

Lemma for_range_done {St : Type} (lo hi : Z) (body : Z -> St -> St) (s : St) :
  hi <= lo -> for_range lo hi body s = s.
Proof.
  intros H. unfold for_range.
  destruct (Z.to_nat (hi - lo)) eqn:E; simpl; [reflexivity|].
  replace (lo <? hi) with false by (symmetry; apply Z.ltb_ge; exact H).
  reflexivity.
Qed.

Lemma for_range_step {St : Type} (lo hi : Z) (body : Z -> St -> St) (s : St) :
  lo < hi -> for_range lo hi body s = for_range (lo + 1) hi body (body lo s).
Proof.
  intros H. unfold for_range.
  replace (Z.to_nat (hi - lo)) with (S (Z.to_nat (hi - (lo + 1)))) by lia.
  simpl.
  replace (lo <? hi) with true by (symmetry; apply Z.ltb_lt; exact H).
  reflexivity.
Qed.

(** The guard of a [for] loop is false when it ends. *)
Lemma for_range_exit {St : Type} (lo hi : Z) (body : Z -> St -> St) (s : St) :
  (fst (while (Z.to_nat (hi - lo))
              (fun p => fst p <? hi)
              (fun p => (fst p + 1, body (fst p) (snd p)))
              (lo, s)) <? hi) = false.
Proof.
  apply (while_exit (fun p => Z.to_nat (hi - fst p))
                    (fun p : Z * St => fst p <? hi)).
  - intros p Hp. apply Z.ltb_lt in Hp. simpl. lia.
  - simpl. lia.
Qed.

Lemma for_range_last {St : Type} (body : Z -> St -> St) :
  forall n lo hi s,
    Z.to_nat (hi - lo) = n -> lo <= hi ->
    for_range lo (hi + 1) body s = body hi (for_range lo hi body s).
Proof.
  induction n as [|n IH]; intros lo hi s Hn Hle.
  - assert (hi = lo) by lia. subst hi.
    rewrite for_range_step by lia.
    rewrite !for_range_done by lia. reflexivity.
  - rewrite (for_range_step lo (hi + 1)) by lia.
    rewrite (for_range_step lo hi) by lia.
    apply IH; lia.
Qed.

Lemma for_range_inv {St : Type} (P : St -> Prop) (body : Z -> St -> St) :
  (forall i s, P s -> P (body i s)) ->
  forall lo hi s, P s -> P (for_range lo hi body s).
Proof.
  intros Hb lo hi s Hs. unfold for_range.
  apply (while_inv (fun p => P (snd p))); [|exact Hs].
  intros p Hp _. simpl. apply Hb, Hp.
Qed.

(** ** Buffers *)

Lemma byte_val_range (b : byte) : 0 <= byte_val b <= 255.
Proof.
  unfold byte_val. pose proof (Byte.to_N_bounded b). lia.
Qed.

Lemma load_range (data : list byte) (i : Z) : 0 <= load data i <= 255.
Proof. apply byte_val_range. Qed.

Lemma skipn_nth_cons (l : list byte) :
  forall m, (m < length l)%nat -> skipn m l = nth m l x00 :: skipn (S m) l.
Proof.
  induction l as [|x l IH]; intros m Hm; simpl in Hm; [lia|].
  destruct m as [|m]; [reflexivity|].
  change (skipn m l = nth m l x00 :: skipn (S m) l).
  apply IH. lia.
Qed.

Lemma firstn_plus_skipn {A : Type} (l : list A) :
  forall a b, firstn (a + b) l = firstn a l ++ firstn b (skipn a l).
Proof.
  induction l as [|x l IH]; intros a b.
  - rewrite !firstn_nil, skipn_nil, firstn_nil. reflexivity.
  - destruct a as [|a]; simpl; [reflexivity|].
    rewrite IH. reflexivity.
Qed.

(** A [for] loop that reads [data[base + i]] for [lo <= i < hi] folds its
    body over that slice of the buffer. *)
Lemma for_range_loads {St : Type} (f : Z -> St -> St) (data : list byte)
    (base : Z) :
  0 <= base ->
  forall n lo hi s,
    Z.to_nat (hi - lo) = n -> 0 <= lo <= hi -> base + hi <= size data ->
    for_range lo hi (fun i a => f (load data (base + i)) a) s
    = fold_left (fun a b => f (byte_val b) a)
                (firstn n (skipn (Z.to_nat (base + lo)) data)) s.
Proof.
  intros Hbase. unfold size.
  induction n as [|n IH]; intros lo hi s Hn Hlo Hhi.
  - rewrite for_range_done by lia. reflexivity.
  - rewrite for_range_step by lia.
    rewrite (IH (lo + 1) hi) by lia.
    rewrite (skipn_nth_cons data (Z.to_nat (base + lo))) by lia.
    replace (Z.to_nat (base + (lo + 1))) with (S (Z.to_nat (base + lo))) by lia.
    reflexivity.
Qed.

(** The loop over the whole buffer. *)
Lemma for_range_whole (step : Z -> sums -> sums) (data : list byte) (a : sums) :
  for_range 0 (size data) (fun i a => step (load data i) a) a = run step data a.
Proof.
  unfold run.
  rewrite (for_range_loads step data 0 (Z.le_refl 0) (length data) 0 (size data))
    by (unfold size; lia).
  simpl. rewrite firstn_all. reflexivity.
Qed.

(** ** Arithmetic of the accumulators *)

Ltac unfold_ints :=
  unfold u32, wrap, MOD_ADLER in *;
  change (2 ^ 32) with 4294967296 in *.

Lemma mod_step_reduced (b : Z) (a : sums) : reduced (mod_step b a).
Proof.
  unfold reduced, mod_step; simpl. unfold MOD_ADLER.
  split; apply Z.mod_pos_bound; lia.
Qed.

Lemma reduce_reduced (a : sums) : reduced (reduce a).
Proof.
  unfold reduced, reduce; simpl. unfold MOD_ADLER.
  split; apply Z.mod_pos_bound; lia.
Qed.

Lemma reduce_id (a : sums) : reduced a -> reduce a = a.
Proof.
  destruct a as [x y]. unfold reduced, reduce; simpl. intros [Hx Hy].
  rewrite !Z.mod_small by assumption. reflexivity.
Qed.

Lemma seed_reduced : reduced seed.
Proof. unfold reduced, seed, MOD_ADLER; simpl. lia. Qed.

(** One reducing step after a reduction is the reduction of one exact step. *)
Lemma mod_step_reduce (b : Z) (a : sums) :
  0 <= b <= 255 -> 0 <= s1 a -> 0 <= s2 a ->
  mod_step b (reduce a) = reduce (exact_step b a).
Proof.
  intros Hb H1 H2. destruct a as [x y]. simpl in H1, H2.
  unfold mod_step, reduce, exact_step; simpl.
  assert (E1 : u32 (x mod MOD_ADLER + b) mod MOD_ADLER = (x + b) mod MOD_ADLER).
  { unfold_ints.
    rewrite (Z.mod_small (x mod 65521 + b)) by
      (pose proof (Z.mod_pos_bound x 65521); lia).
    rewrite Z.add_mod_idemp_l by lia. reflexivity. }
  rewrite E1. f_equal.
  unfold_ints.
  rewrite (Z.mod_small (y mod 65521 + (x + b) mod 65521)) by
    (pose proof (Z.mod_pos_bound y 65521);
     pose proof (Z.mod_pos_bound (x + b) 65521); lia).
  rewrite Z.add_mod_idemp_l, Z.add_mod_idemp_r by lia. reflexivity.
Qed.

Lemma exact_step_nonneg (b : Z) (a : sums) :
  0 <= b -> 0 <= s1 a -> 0 <= s2 a ->
  0 <= s1 (exact_step b a) /\ 0 <= s2 (exact_step b a).
Proof. unfold exact_step; simpl. lia. Qed.

(** The reducing recurrence is the exact one, reduced at the end. *)
Lemma run_mod_exact (l : list byte) :
  forall a, 0 <= s1 a -> 0 <= s2 a ->
    run mod_step l (reduce a) = reduce (run exact_step l a).
Proof.
  unfold run.
  induction l as [|x l IH]; intros a H1 H2; simpl; [reflexivity|].
  pose proof (byte_val_range x) as Hx.
  rewrite mod_step_reduce by (assumption || lia).
  apply IH; apply exact_step_nonneg; assumption || lia.
Qed.

(** Growth of the exact sums over a run of [n] bytes: [s1] by at most
    [255 n], [s2] by at most [n s1 + 255 n (n + 1) / 2]. *)
Lemma run_exact_bound (l : list byte) :
  forall a, 0 <= s1 a -> 0 <= s2 a ->
    let n := Z.of_nat (length l) in
    let r := run exact_step l a in
    s1 a <= s1 r <= s1 a + 255 * n /\
    s2 a <= s2 r /\
    2 * s2 r <= 2 * s2 a + 2 * n * s1 a + 255 * n * (n + 1).
Proof.
  unfold run.
  induction l as [|x l IH]; intros a H1 H2; cbn zeta.
  - simpl. lia.
  - pose proof (byte_val_range x) as Hx.
    destruct (exact_step_nonneg (byte_val x) a) as [G1 G2];
      [lia | assumption | assumption |].
    specialize (IH (exact_step (byte_val x) a) G1 G2). cbn zeta in IH.
    change (fold_left _ (x :: l) a)
      with (fold_left (fun a b => exact_step (byte_val b) a) l
                      (exact_step (byte_val x) a)).
    set (r := fold_left _ l _) in *.
    replace (Z.of_nat (length (x :: l))) with (Z.of_nat (length l) + 1)
      by (simpl length; lia).
    set (n := Z.of_nat (length l)) in *.
    assert (0 <= n) by lia.
    unfold exact_step in IH; cbn [s1 s2] in IH.
    assert (0 <= (n + 1) * (255 - byte_val x))
      by (apply Z.mul_nonneg_nonneg; lia).
    nia.
Qed.

(** Unreduced accumulation does not wrap as long as the bound of
    [run_exact_bound] stays inside 32 bits. *)
Lemma run_raw_exact (l : list byte) :
  forall a, 0 <= s1 a -> 0 <= s2 a ->
    let n := Z.of_nat (length l) in
    s1 a + 255 * n < 2 ^ 32 ->
    2 * s2 a + 2 * n * s1 a + 255 * n * (n + 1) < 2 ^ 33 ->
    run raw_step l a = run exact_step l a.
Proof.
  unfold run. change (2 ^ 32) with 4294967296. change (2 ^ 33) with 8589934592.
  induction l as [|x l IH]; intros a H1 H2; cbn zeta; [reflexivity|].
  replace (Z.of_nat (length (x :: l))) with (Z.of_nat (length l) + 1)
    by (simpl length; lia).
  set (n := Z.of_nat (length l)) in *.
  intros B1 B2.
  pose proof (byte_val_range x) as Hx.
  assert (Hn : 0 <= n) by lia.
  assert (0 <= n * s1 a) by (apply Z.mul_nonneg_nonneg; lia).
  assert (0 <= n * n) by (apply Z.mul_nonneg_nonneg; lia).
  assert (0 <= (n + 1) * (255 - byte_val x))
    by (apply Z.mul_nonneg_nonneg; lia).
  assert (E : raw_step (byte_val x) a = exact_step (byte_val x) a).
  { unfold raw_step, exact_step. unfold_ints.
    rewrite (Z.mod_small (s1 a + byte_val x)) by lia.
    rewrite Z.mod_small by nia. reflexivity. }
  simpl fold_left. rewrite E.
  apply IH; unfold exact_step; cbn [s1 s2]; lia.
Qed.

(** Section 4.2's budget: from reduced accumulators, 5552 bytes fit. *)
Lemma budget_5552 (l : list byte) (a : sums) :
  reduced a -> Z.of_nat (length l) <= 5552 ->
  let n := Z.of_nat (length l) in
  s1 a + 255 * n < 2 ^ 32 /\
  2 * s2 a + 2 * n * s1 a + 255 * n * (n + 1) < 2 ^ 33.
Proof.
  unfold reduced, MOD_ADLER. intros [H1 H2] Hn. cbn zeta.
  set (n := Z.of_nat (length l)) in *.
  change (2 ^ 32) with 4294967296. change (2 ^ 33) with 8589934592.
  assert (0 <= n) by lia.
  assert (n * s1 a <= 5552 * 65520) by (apply Z.mul_le_mono_nonneg; lia).
  assert (n * (n + 1) <= 5552 * 5553) by (apply Z.mul_le_mono_nonneg; lia).
  lia.
Qed.

(** A chunk of at most 5552 bytes, accumulated unreduced from reduced
    accumulators and reduced once, is the per-byte reducing recurrence. *)
Lemma chunk_reduce (l : list byte) (a : sums) :
  reduced a -> Z.of_nat (length l) <= 5552 ->
  reduce (run raw_step l a) = run mod_step l a.
Proof.
  intros Ha Hn. pose proof Ha as [H1 H2].
  destruct (budget_5552 l a Ha Hn) as [B1 B2].
  rewrite run_raw_exact by (assumption || lia).
  rewrite <- run_mod_exact by lia.
  rewrite reduce_id by assumption. reflexivity.
Qed.

Lemma run_app (step : Z -> sums -> sums) (l1 l2 : list byte) (a : sums) :
  run step (l1 ++ l2) a = run step l2 (run step l1 a).
Proof. unfold run. apply fold_left_app. Qed.

Lemma run_mod_reduced (l : list byte) :
  forall a, reduced a -> reduced (run mod_step l a).
Proof.
  unfold run. induction l as [|x l IH]; intros a Ha; simpl; [exact Ha|].
  apply IH, mod_step_reduced.
Qed.

(** On reduced accumulators the C step and the specification's step agree. *)
Lemma mod_step_spec (b : Z) (a : sums) :
  0 <= b <= 255 -> reduced a -> mod_step b a = spec_step b a.
Proof.
  unfold reduced. intros Hb [H1 H2].
  unfold mod_step, spec_step. unfold_ints.
  rewrite (Z.mod_small (s1 a + b) 4294967296) by lia.
  pose proof (Z.mod_pos_bound (s1 a + b) 65521).
  rewrite (Z.mod_small (s2 a + _) 4294967296) by lia.
  reflexivity.
Qed.

Lemma run_mod_spec (l : list byte) :
  forall a, reduced a ->
    run mod_step l a = fold_left (fun a b => spec_step (byte_val b) a) l a.
Proof.
  unfold run. induction l as [|x l IH]; intros a Ha; simpl; [reflexivity|].
  rewrite <- (mod_step_spec (byte_val x) a (byte_val_range x) Ha).
  apply IH, mod_step_reduced.
Qed.

(** ** Packing *)

Lemma lor_shiftl_16 (hi lo : Z) :
  0 <= lo < 2 ^ 16 -> Z.lor (Z.shiftl hi 16) lo = hi * 2 ^ 16 + lo.
Proof.
  intros Hlo.
  rewrite Z.shiftl_mul_pow2 by lia.
  rewrite <- Z.lxor_lor, <- Z.add_nocarry_lxor; try reflexivity.
  all: apply Z.bits_inj'; intros n Hn;
    rewrite Z.land_spec, Z.bits_0;
    destruct (Z.ltb_spec n 16) as [Hlt|Hge];
    [ rewrite Z.mul_pow2_bits_low by lia; reflexivity
    | rewrite (Z.bits_above_log2 lo n), andb_false_r; [reflexivity| lia |];
      destruct (Z.eq_dec lo 0) as [->|Hz]; [simpl; lia|];
      apply Z.log2_lt_pow2; [lia|];
      apply Z.lt_le_trans with (2 ^ 16); [lia|];
      apply Z.pow_le_mono_r; lia ].
Qed.

Lemma pack_reduced (a : sums) :
  reduced a -> pack a = s2 a * 2 ^ 16 + s1 a.
Proof.
  unfold reduced, pack, MOD_ADLER. intros [H1 H2].
  assert (E : u32 (Z.shiftl (s2 a) 16) = Z.shiftl (s2 a) 16).
  { unfold u32, wrap. rewrite Z.shiftl_mul_pow2 by lia.
    apply Z.mod_small.
    change (2 ^ 16) with 65536. change (2 ^ 32) with 4294967296. lia. }
  rewrite E. apply lor_shiftl_16. change (2 ^ 16) with 65536. lia.
Qed.

Lemma pack_halves (a : sums) :
  reduced a ->
  Z.land (pack a) 65535 = s1 a /\ Z.shiftr (pack a) 16 = s2 a.
Proof.
  intros Ha. rewrite (pack_reduced a Ha).
  destruct Ha as [H1 H2]. unfold MOD_ADLER in *.
  change 65535 with (Z.ones 16).
  rewrite Z.land_ones, Z.shiftr_div_pow2 by lia.
  change (2 ^ 16) with 65536. split.
  - rewrite Z.add_comm, Z.mod_add by lia. apply Z.mod_small. lia.
  - rewrite Z.add_comm, Z.div_add by lia. rewrite Z.div_small by lia. lia.
Qed.

(** ** The scalar and the block-batched engine as folds *)

Lemma simple_run (data : list byte) :
  Simple.adler32_neon data = pack (run mod_step data seed).
Proof.
  unfold Simple.adler32_neon. rewrite for_range_whole. reflexivity.
Qed.

Lemma for_range_slice {St : Type} (f : Z -> St -> St) (data : list byte)
    (base n : Z) (s : St) :
  0 <= base -> 0 <= n -> base + n <= size data ->
  for_range 0 n (fun i a => f (load data (base + i)) a) s
  = fold_left (fun a b => f (byte_val b) a)
              (firstn (Z.to_nat n) (skipn (Z.to_nat base) data)) s.
Proof.
  intros Hb Hn Hs.
  rewrite (for_range_loads f data base Hb (Z.to_nat n) 0 n) by lia.
  rewrite Z.add_0_r. reflexivity.
Qed.

Lemma firstn_length_Z {A : Type} (n : Z) (l : list A) :
  0 <= n -> Z.of_nat (length (firstn (Z.to_nat n) l)) <= n.
Proof.
  intros Hn. pose proof (firstn_le_length (Z.to_nat n) l). lia.
Qed.

(** After [k] full blocks the accumulators are those of the reducing
    recurrence over the first [5552 k] bytes. *)
Lemma block_passes (data : list byte) :
  forall k : nat,
    Z.of_nat k <= size data / 5552 ->
    for_range 0 (Z.of_nat k) (Block.block_pass data) seed
    = run mod_step (firstn (Z.to_nat (Z.of_nat k * 5552)) data) seed.
Proof.
  induction k as [|k IH]; intros Hk.
  - rewrite for_range_done by lia. reflexivity.
  - assert (Hfit : Z.of_nat k * 5552 + 5552 <= size data).
    { pose proof (Z.mul_div_le (size data) 5552). nia. }
    rewrite Nat2Z.inj_succ. unfold Z.succ.
    rewrite (for_range_last _ k) by lia.
    rewrite IH by lia.
    unfold Block.block_pass, Block.BLOCK_SIZE. cbn zeta.
    rewrite for_range_slice by lia.
    fold (run raw_step
            (firstn (Z.to_nat 5552) (skipn (Z.to_nat (Z.of_nat k * 5552)) data))
            (run mod_step (firstn (Z.to_nat (Z.of_nat k * 5552)) data) seed)).
    rewrite chunk_reduce;
      [| apply run_mod_reduced, seed_reduced | apply firstn_length_Z; lia].
    rewrite <- run_app, <- firstn_plus_skipn.
    f_equal. f_equal. lia.
Qed.

Lemma block_run (data : list byte) :
  Block.adler32_neon data = pack (run mod_step data seed).
Proof.
  unfold Block.adler32_neon.
  destruct (size data <? 16) eqn:Hshort.
  - rewrite for_range_whole. reflexivity.
  - cbn zeta.
    set (blocks := size data / Block.BLOCK_SIZE).
    assert (Hsz : 0 <= size data) by (unfold size; lia).
    assert (Hb : 0 <= blocks) by (apply Z.div_pos; unfold Block.BLOCK_SIZE; lia).
    pose proof (Z.div_mod (size data) Block.BLOCK_SIZE) as Hdm.
    pose proof (Z.mod_pos_bound (size data) Block.BLOCK_SIZE) as Hrem.
    fold blocks in Hdm. unfold Block.BLOCK_SIZE in *.
    rewrite <- (Z2Nat.id blocks Hb) at 1.
    rewrite block_passes by (fold blocks; lia).
    rewrite Z2Nat.id by exact Hb.
    rewrite for_range_slice by lia.
    fold (run raw_step
            (firstn (Z.to_nat (size data mod 5552))
                    (skipn (Z.to_nat (blocks * 5552)) data))
            (run mod_step (firstn (Z.to_nat (blocks * 5552)) data) seed)).
    rewrite chunk_reduce;
      [| apply run_mod_reduced, seed_reduced
       | pose proof (firstn_length_Z (size data mod 5552)
                       (skipn (Z.to_nat (blocks * 5552)) data)); lia].
    rewrite <- run_app, <- firstn_plus_skipn.
    rewrite firstn_all2 by (unfold size in *; lia).
    reflexivity.
Qed.

(** The chunked policy of section 4.2 is the reducing recurrence. *)
Lemma chunks_run :
  forall fuel l a,
    (length l <= fuel)%nat -> reduced a ->
    fold_left (fun a chunk => reduce (run raw_step chunk a)) (chunks fuel l) a
    = run mod_step l a.
Proof.
  induction fuel as [|fuel IH]; intros l a Hl Ha.
  - destruct l; [reflexivity | simpl in Hl; lia].
  - destruct l as [|b l]; [reflexivity|].
    cbn [chunks fold_left].
    set (l0 := b :: l) in *.
    rewrite chunk_reduce; [| exact Ha | apply firstn_length_Z; lia].
    rewrite IH.
    + rewrite <- run_app, firstn_skipn. reflexivity.
    + rewrite length_skipn. subst l0. simpl length in *. lia.
    + apply run_mod_reduced, Ha.
Qed.

(** ** The vector engine *)

Lemma chunk_loop_end (data : list byte) (i0 : Z) :
  Neon.idx (Neon.chunk_loop data i0) = i0 + 5552 /\
  Neon.block_len (Neon.chunk_loop data i0) = 0.
Proof.
  unfold Neon.chunk_loop, Neon.BLOCK_SIZE.
  set (c0 := Neon.Lanes i0 5552 _ _).
  set (cond := fun c => Neon.NEON_CHUNK_SIZE <=? Neon.block_len c).
  assert (Hinv :
    (fun c => Neon.idx c + Neon.block_len c = i0 + 5552 /\
              0 <= Neon.block_len c /\ Neon.block_len c mod 16 = 0)
      (while (Z.to_nat 5552) cond (Neon.chunk_body data) c0)).
  { apply while_inv.
    - intros c (Hsum & Hpos & Hmod) Hc. unfold cond in Hc.
      apply Z.leb_le in Hc. unfold Neon.NEON_CHUNK_SIZE in Hc.
      unfold Neon.chunk_body, Neon.NEON_CHUNK_SIZE. cbn [Neon.idx Neon.block_len].
      repeat split; try lia.
      revert Hmod. Z.div_mod_to_equations. lia.
    - subst c0. cbn [Neon.idx Neon.block_len]. repeat split; lia || reflexivity. }
  assert (Hexit :
    cond (while (Z.to_nat 5552) cond (Neon.chunk_body data) c0) = false).
  { apply (while_exit (fun c => Z.to_nat (Neon.block_len c))).
    - intros c Hc. unfold cond in Hc. apply Z.leb_le in Hc.
      unfold Neon.NEON_CHUNK_SIZE in Hc.
      unfold Neon.chunk_body, Neon.NEON_CHUNK_SIZE. cbn [Neon.block_len]. lia.
    - subst c0. cbn [Neon.block_len]. lia. }
  cbv beta in Hinv. destruct Hinv as (Hsum & Hpos & Hmod).
  unfold cond in Hexit. apply Z.leb_gt in Hexit.
  unfold Neon.NEON_CHUNK_SIZE in Hexit.
  set (c := while _ _ _ _) in *.
  assert (Neon.block_len c = 0)
    by (revert Hmod; Z.div_mod_to_equations; lia).
  lia.
Qed.

Lemma fold_block_reduced (w : Z) (a : sums) (x y : Z) :
  reduced (Neon.fold_block w a x y).
Proof.
  unfold reduced, Neon.fold_block. cbn [s1 s2].
  set (t := wrap w _ mod MOD_ADLER).
  assert (Ht : 0 <= t < MOD_ADLER)
    by (apply Z.mod_pos_bound; unfold MOD_ADLER; lia).
  split; [apply Z.mod_pos_bound; unfold MOD_ADLER; lia|].
  unfold u32, wrap. rewrite Z.mod_small; [exact Ht|].
  unfold MOD_ADLER in Ht. change (2 ^ 32) with 4294967296. lia.
Qed.

(** What is known of the variables when the super-block loop is left. *)
Lemma block_loop_end (w : Z) (data : list byte) :
  let v := Neon.block_loop w data in
  reduced (Neon.acc v) /\
  (size data < 5552 -> v = Neon.Vars 0 (size data) seed) /\
  (5552 <= size data -> 0 <= Neon.len v < 5552 /\ 5552 <= Neon.i v).
Proof.
  cbn zeta. unfold Neon.block_loop.
  destruct (16 <=? size data) eqn:H16.
  2:{ apply Z.leb_gt in H16. cbn [Neon.acc].
      split; [apply seed_reduced|]. split; [reflexivity | lia]. }
  set (v0 := Neon.Vars 0 (size data) seed).
  set (cond := fun v => Neon.BLOCK_SIZE <=? Neon.len v).
  set (body := Neon.block_body w data).
  assert (Hinv :
    (fun v => reduced (Neon.acc v) /\ 0 <= Neon.len v /\ 0 <= Neon.i v /\
              (v = v0 \/ 5552 <= Neon.i v))
      (while (length data) cond body v0)).
  { apply while_inv.
    - intros v (Hr & Hlen & Hi & Hor) Hc. unfold cond in Hc.
      apply Z.leb_le in Hc. unfold Neon.BLOCK_SIZE in Hc.
      unfold body, Neon.block_body, Neon.BLOCK_SIZE.
      cbn [Neon.acc Neon.len Neon.i].
      destruct (chunk_loop_end data (Neon.i v)) as [Hidx _].
      rewrite Hidx.
      split; [apply fold_block_reduced|].
      split; [lia|]. split; [lia|]. right; lia.
    - subst v0. cbn [Neon.acc Neon.len Neon.i].
      split; [apply seed_reduced|].
      split; [unfold size; lia|]. split; [lia|]. left; reflexivity. }
  assert (Hexit : cond (while (length data) cond body v0) = false).
  { apply (while_exit (fun v => Z.to_nat (Neon.len v))).
    - intros v Hc. unfold cond in Hc. apply Z.leb_le in Hc.
      unfold Neon.BLOCK_SIZE in Hc.
      unfold body, Neon.block_body, Neon.BLOCK_SIZE. cbn [Neon.len]. lia.
    - subst v0. cbn [Neon.len]. unfold size. lia. }
  cbv beta in Hinv. destruct Hinv as (Hr & Hlen & Hi & Hor).
  set (vend := while (length data) cond body v0) in *.
  unfold cond in Hexit. apply Z.leb_gt in Hexit.
  unfold Neon.BLOCK_SIZE in Hexit.
  split; [exact Hr|]. split.
  - intros Hsmall. subst vend.
    destruct (length data) as [|fuel] eqn:Hfuel; [reflexivity|].
    cbn [while]. unfold cond at 1. subst v0. cbn [Neon.len].
    unfold Neon.BLOCK_SIZE.
    replace (5552 <=? size data) with false
      by (symmetry; apply Z.leb_gt; exact Hsmall).
    reflexivity.
  - intros Hbig. split; [lia|].
    destruct Hor as [Hv0 | Hi5]; [|exact Hi5].
    rewrite Hv0 in Hexit. subst v0. cbn [Neon.len] in Hexit. lia.
Qed.

(** Below one super-block the vector engine is the scalar loop. *)
Lemma neon_short (w : Z) (data : list byte) :
  size data < 5552 ->
  Neon.adler32_neon w data = pack (run mod_step data seed).
Proof.
  intros Hsmall. unfold Neon.adler32_neon.
  destruct (size data =? 0) eqn:Hz.
  - apply Z.eqb_eq in Hz. unfold size in Hz.
    destruct data; [reflexivity | simpl in Hz; lia].
  - destruct (block_loop_end w data) as (_ & Hv & _).
    rewrite (Hv Hsmall). cbn [Neon.i Neon.len Neon.acc].
    rewrite for_range_whole. reflexivity.
Qed.

(** From one super-block on, the scalar tail loop is never entered. *)
Lemma neon_long (w : Z) (data : list byte) :
  5552 <= size data ->
  Neon.adler32_neon w data = pack (Neon.acc (Neon.block_loop w data)).
Proof.
  intros Hbig. unfold Neon.adler32_neon.
  replace (size data =? 0) with false by (symmetry; apply Z.eqb_neq; lia).
  destruct (block_loop_end w data) as (_ & _ & Hv).
  destruct (Hv Hbig) as [Hlen Hi].
  rewrite for_range_done by lia. reflexivity.
Qed.

Lemma neon_reduced (w : Z) (data : list byte) :
  exists a, reduced a /\ Neon.adler32_neon w data = pack a.
Proof.
  destruct (Z.lt_ge_cases (size data) 5552) as [Hsmall | Hbig].
  - exists (run mod_step data seed). split.
    + apply run_mod_reduced, seed_reduced.
    + apply neon_short, Hsmall.
  - exists (Neon.acc (Neon.block_loop w data)). split.
    + apply (block_loop_end w data).
    + apply neon_long, Hbig.
Qed.

(** The weights a chunk really gets: 16 for bytes 0..3, 12 for bytes 4..7,
    8 for bytes 8..11 and 4 for bytes 12..15. *)
Lemma chunk_weights (data : list byte) (i0 : Z) :
  chunk_weighted data i0 = weighted_sum lane_group_weight data i0.
Proof.
  unfold chunk_weighted, weighted_sum, lane_group_weight.
  unfold Neon.chunk_body, Neon.hsum, Neon.vld1q_u8.
  cbn [Neon.block_s1 Neon.block_s2 Neon.idx map fold_right].
  unfold Neon.v_16, Neon.v_12, Neon.v_8, Neon.v_4, Neon.vdupq_n_u32,
    Neon.vmovl_u16, Neon.vmovl_u8, Neon.vget_low_u16, Neon.vget_high_u16,
    Neon.vget_low_u8, Neon.vget_high_u8, Neon.vaddq_u32, Neon.vmulq_u32,
    Neon.vgetq_lane_u32.
  cbn [firstn skipn Neon.lanewise nth].
  repeat match goal with
         | |- context [load data ?j] =>
             let H := fresh "Hb" in
             pose proof (load_range data j) as H;
             generalize dependent (load data j); intros
         end.
  unfold u32, wrap. change (2 ^ 32) with 4294967296.
  repeat match goal with
         | |- context [?x mod 4294967296] =>
             rewrite (Z.mod_small x 4294967296) by lia
         end.
  change (0 / 4) with 0. change (1 / 4) with 0. change (2 / 4) with 0.
  change (3 / 4) with 0. change (4 / 4) with 1. change (5 / 4) with 1.
  change (6 / 4) with 1. change (7 / 4) with 1. change (8 / 4) with 2.
  change (9 / 4) with 2. change (10 / 4) with 2. change (11 / 4) with 2.
  change (12 / 4) with 3. change (13 / 4) with 3. change (14 / 4) with 3.
  change (15 / 4) with 3.
  lia.
Qed.

(** An input of one super-block and fewer than 5552 further bytes goes
    through the body of the super-block loop exactly once. *)
Lemma block_loop_once (w : Z) (data : list byte) :
  5552 <= size data < 11104 ->
  Neon.block_loop w data
  = Neon.block_body w data (Neon.Vars 0 (size data) seed).
Proof.
  intros Hsz. unfold Neon.block_loop.
  replace (16 <=? size data) with true by (symmetry; apply Z.leb_le; lia).
  destruct (length data) as [|[|fuel]] eqn:Hfuel;
    [unfold size in Hsz; lia | unfold size in Hsz; lia |].
  cbn [while]. cbn [Neon.len]. unfold Neon.BLOCK_SIZE at 1.
  replace (5552 <=? size data) with true by (symmetry; apply Z.leb_le; lia).
  unfold Neon.block_body at 1 3 4. cbn [Neon.len Neon.acc Neon.i].
  unfold Neon.BLOCK_SIZE at 1 2.
  replace (5552 <=? size data - 5552) with false
    by (symmetry; apply Z.leb_gt; lia).
  reflexivity.
Qed.

Lemma neon_one_block (w : Z) (data : list byte) :
  5552 <= size data < 11104 ->
  Neon.adler32_neon w data
  = pack (Neon.fold_block w seed
            (Neon.hsum (Neon.block_s1 (Neon.chunk_loop data 0)))
            (Neon.hsum (Neon.block_s2 (Neon.chunk_loop data 0)))).
Proof.
  intros Hsz. rewrite neon_long by lia.
  rewrite block_loop_once by exact Hsz. reflexivity.
Qed.

(** The lanes the three one-block test buffers leave behind. *)
Lemma lanes_all_ff :
  Neon.chunk_loop all_ff 0
  = Neon.Lanes 5552 0 [353940; 353940; 353940; 353940]
               [3539400; 3539400; 3539400; 3539400].
Proof. vm_compute. reflexivity. Qed.

Lemma lanes_one_then_zeros :
  Neon.chunk_loop one_then_zeros 0 = Neon.Lanes 5552 0 [1; 0; 0; 0] [16; 0; 0; 0].
Proof. vm_compute. reflexivity. Qed.

Lemma lanes_one_zeros_one :
  Neon.chunk_loop one_zeros_one 0 = Neon.Lanes 5552 0 [1; 0; 0; 0] [16; 0; 0; 0].
Proof. vm_compute. reflexivity. Qed.

Lemma size_all_ff : size all_ff = 5552.
Proof. vm_compute. reflexivity. Qed.

Lemma size_one_then_zeros : size one_then_zeros = 5552.
Proof. vm_compute. reflexivity. Qed.

Lemma size_one_zeros_one : size one_zeros_one = 5553.
Proof. vm_compute. reflexivity. Qed.

(** The closing update of a super-block when no [size_t] operation wraps:
    the formula of section 4.3 with the already updated [s1] in the place
    of the entering one. *)
Lemma fold_block_exact (w : Z) (a : sums) (x y : Z) :
  32 <= w -> reduced a -> 0 <= x -> 0 <= y ->
  s1 a + x < 2 ^ 32 -> s2 a + y < 2 ^ 32 -> x * 5553 < 2 ^ w ->
  let s1' := (s1 a + x) mod 65521 in
  x * 5553 / 2 <= s2 a + y + 5552 * s1' ->
  s2 a + y + 5552 * s1' < 2 ^ w ->
  Neon.fold_block w a x y = Sums s1' (spec_s2_update (s2 a) y 5552 s1' x).
Proof.
  intros Hw [H1 H2] Hx Hy B1 B2 B3 s1' B4 B5.
  assert (HT : 2 ^ 32 <= 2 ^ w) by (apply Z.pow_le_mono_r; lia).
  unfold Neon.fold_block, spec_s2_update, Neon.BLOCK_SIZE.
  unfold u32, wrap, MOD_ADLER in *.
  change (2 ^ 32) with 4294967296 in *.
  set (T := 2 ^ w) in *.
  rewrite (Z.mod_small (s1 a + x) 4294967296) by lia.
  fold s1'.
  assert (Hs1' : 0 <= s1' < 65521) by (apply Z.mod_pos_bound; lia).
  assert (Hh : 0 <= x * 5553 / 2) by (apply Z.div_pos; lia).
  rewrite (Z.mod_small (s2 a + y) 4294967296) by lia.
  rewrite (Z.mod_small (5552 * s1') T) by lia.
  rewrite (Z.mod_small (s2 a + y + 5552 * s1') T) by lia.
  change (5552 + 1) with 5553.
  rewrite (Z.mod_small 5553 T) by lia.
  rewrite (Z.mod_small (x * 5553) T) by lia.
  rewrite (Z.mod_small (s2 a + y + 5552 * s1' - x * 5553 / 2) T) by lia.
  rewrite (Z.mod_small (_ mod 65521) 4294967296)
    by (pose proof (Z.mod_pos_bound
                      (s2 a + y + 5552 * s1' - x * 5553 / 2) 65521); lia).
  reflexivity.
Qed.

(** ** The vector engine only reads its full super-blocks *)

Lemma while_ext {St : Type} (P : St -> Prop) (cond : St -> bool)
    (body body' : St -> St) :
  (forall s, P s -> cond s = true -> P (body s)) ->
  (forall s, P s -> cond s = true -> body s = body' s) ->
  forall fuel s, P s -> while fuel cond body s = while fuel cond body' s.
Proof.
  intros Hp He fuel.
  induction fuel as [|fuel IH]; intros s Hs; simpl; [reflexivity|].
  destruct (cond s) eqn:Hc; [|reflexivity].
  rewrite <- (He s Hs Hc). apply IH, Hp; assumption.
Qed.

Lemma while_rel {St : Type} (R : St -> St -> Prop) (cond cond' : St -> bool)
    (body body' : St -> St) :
  (forall s s', R s s' -> cond s = cond' s') ->
  (forall s s', R s s' -> cond s = true -> R (body s) (body' s')) ->
  forall fuel s s',
    R s s' -> R (while fuel cond body s) (while fuel cond' body' s').
Proof.
  intros Hc Hb fuel.
  induction fuel as [|fuel IH]; intros s s' HR; simpl; [exact HR|].
  rewrite <- (Hc s s' HR). destruct (cond s) eqn:E; [|exact HR].
  apply IH, Hb; assumption.
Qed.

Lemma load_firstn (data : list byte) (n j : Z) :
  0 <= j < n -> load (firstn (Z.to_nat n) data) j = load data j.
Proof.
  intros Hj. unfold load. rewrite nth_firstn.
  replace (Z.to_nat j <? Z.to_nat n)%nat with true; [reflexivity|].
  symmetry. apply Nat.ltb_lt. lia.
Qed.

Lemma chunk_body_firstn (data : list byte) (n : Z) (c : Neon.lanes) :
  0 <= Neon.idx c -> Neon.idx c + 16 <= n ->
  Neon.chunk_body (firstn (Z.to_nat n) data) c = Neon.chunk_body data c.
Proof.
  intros Hi Hn. unfold Neon.chunk_body.
  assert (E : Neon.vld1q_u8 (firstn (Z.to_nat n) data) (Neon.idx c)
              = Neon.vld1q_u8 data (Neon.idx c)).
  { unfold Neon.vld1q_u8. cbn [map].
    rewrite !load_firstn by lia. reflexivity. }
  rewrite E. reflexivity.
Qed.

Lemma chunk_loop_firstn (data : list byte) (n i0 : Z) :
  0 <= i0 -> i0 + 5552 <= n ->
  Neon.chunk_loop (firstn (Z.to_nat n) data) i0 = Neon.chunk_loop data i0.
Proof.
  intros Hi Hn. unfold Neon.chunk_loop, Neon.BLOCK_SIZE, Neon.NEON_CHUNK_SIZE.
  apply (while_ext
           (fun c => i0 <= Neon.idx c /\
                     Neon.idx c + Neon.block_len c = i0 + 5552)).
  - intros c [H1 H2] Hc. apply Z.leb_le in Hc.
    unfold Neon.chunk_body, Neon.NEON_CHUNK_SIZE.
    cbn [Neon.idx Neon.block_len]. lia.
  - intros c [H1 H2] Hc. apply Z.leb_le in Hc.
    apply chunk_body_firstn; lia.
  - cbn [Neon.idx Neon.block_len]. lia.
Qed.

(** The accumulators that leave the super-block loop are those of the
    input cut after its last full super-block. *)
Lemma block_loop_firstn (w : Z) (data : list byte) :
  5552 <= size data ->
  Neon.acc (Neon.block_loop w
              (firstn (Z.to_nat (5552 * (size data / 5552))) data))
  = Neon.acc (Neon.block_loop w data).
Proof.
  intros Hbig.
  set (n := 5552 * (size data / 5552)).
  set (data' := firstn (Z.to_nat n) data).
  pose proof (Z.div_mod (size data) 5552 ltac:(lia)) as Hdm.
  pose proof (Z.mod_pos_bound (size data) 5552 ltac:(lia)) as Hrem.
  assert (Hq : 1 <= size data / 5552)
    by (apply Z.div_le_lower_bound; lia).
  fold n in Hdm.
  assert (Hsz' : size data' = n).
  { unfold size, data'. rewrite length_firstn. unfold size in *. lia. }
  unfold Neon.block_loop. rewrite Hsz'.
  replace (16 <=? size data) with true by (symmetry; apply Z.leb_le; lia).
  replace (16 <=? n) with true by (symmetry; apply Z.leb_le; lia).
  set (cond := fun v => Neon.BLOCK_SIZE <=? Neon.len v).
  (* the fuel [length data'] is already enough on [data] *)
  assert (Hfuel :
    while (length data) cond (Neon.block_body w data)
          (Neon.Vars 0 (size data) seed)
    = while (length data') cond (Neon.block_body w data)
            (Neon.Vars 0 (size data) seed)).
  { replace (length data)
      with (length data' + (length data - length data'))%nat
      by (unfold size in *; lia).
    apply while_more_fuel.
    apply (while_exit (fun v => Z.to_nat (Neon.len v / 5552))).
    - intros v Hc. unfold cond, Neon.BLOCK_SIZE in Hc. apply Z.leb_le in Hc.
      unfold Neon.block_body, Neon.BLOCK_SIZE. cbn [Neon.len].
      assert (1 <= Neon.len v / 5552) by (apply Z.div_le_lower_bound; lia).
      replace (Neon.len v - 5552) with (Neon.len v + (-1) * 5552) by lia.
      rewrite Z.div_add by lia. lia.
    - cbn [Neon.len]. unfold size in *. lia. }
  rewrite Hfuel.
  set (R := fun v' v : Neon.vars =>
              Neon.i v' = Neon.i v /\ Neon.acc v' = Neon.acc v /\
              Neon.len v = Neon.len v' + size data mod 5552 /\
              0 <= Neon.i v' /\ Neon.i v' + Neon.len v' = n /\
              0 <= Neon.len v' /\ Neon.len v' mod 5552 = 0).
  assert (HR :
    R (while (length data') cond (Neon.block_body w data')
             (Neon.Vars 0 n seed))
      (while (length data') cond (Neon.block_body w data)
             (Neon.Vars 0 (size data) seed))).
  { apply while_rel.
    - intros v' v (_ & _ & Hlen & _ & _ & Hpos & Hmod).
      unfold cond, Neon.BLOCK_SIZE.
      destruct (Z.leb_spec 5552 (Neon.len v'));
        destruct (Z.leb_spec 5552 (Neon.len v)); try reflexivity;
        revert Hmod; Z.div_mod_to_equations; lia.
    - intros v' v (Hi & Ha & Hlen & Hi0 & Hsum & Hpos & Hmod) Hc.
      unfold cond, Neon.BLOCK_SIZE in Hc. apply Z.leb_le in Hc.
      unfold R, Neon.block_body, Neon.BLOCK_SIZE.
      cbn [Neon.i Neon.len Neon.acc].
      unfold data'. rewrite chunk_loop_firstn by lia.
      rewrite <- Hi, Ha.
      destruct (chunk_loop_end data (Neon.i v')) as [Hidx _].
      rewrite Hidx.
      repeat (split; [reflexivity || lia|]).
      revert Hmod. Z.div_mod_to_equations. lia.
    - unfold R. cbn [Neon.i Neon.len Neon.acc].
      repeat (split; [reflexivity || lia|]).
      unfold n. rewrite Z.mul_comm. apply Z.mod_mul. lia. }
  destruct HR as (_ & Ha & _). exact Ha.
Qed.

(** From one super-block on, the bytes after the last full super-block have
    no part in the result. *)
Lemma neon_ignores_tail (w : Z) (data : list byte) :
  5552 <= size data ->
  Neon.adler32_neon w data
  = Neon.adler32_neon w
      (firstn (Z.to_nat (5552 * (size data / 5552))) data).
Proof.
  intros Hbig.
  assert (Hq : 1 <= size data / 5552)
    by (apply Z.div_le_lower_bound; lia).
  pose proof (Z.mul_div_le (size data) 5552 ltac:(lia)) as Hle.
  rewrite (neon_long w data Hbig).
  rewrite neon_long.
  - rewrite block_loop_firstn by exact Hbig. reflexivity.
  - unfold size in *. rewrite length_firstn. lia.
Qed.

(** ** Reference values of section 8 *)

(** ["Wikipedia"] has checksum [0x11E60398] under every engine. *)
Example wikipedia_checksum :
  Simple.adler32_neon wikipedia = 300286872 /\
  Block.adler32_neon wikipedia = 300286872 /\
  Neon.adler32_neon 64 wikipedia = 300286872.
Proof. vm_compute. repeat split. Qed.

(** The single byte 65 has checksum [0x00420042] under every engine. *)
Example single_byte_checksum :
  Simple.adler32_neon [x41] = 4325442 /\
  Block.adler32_neon [x41] = 4325442 /\
  Neon.adler32_neon 64 [x41] = 4325442.
Proof. vm_compute. repeat split. Qed.

(** * The claims *)

(** C1 (refuted by the code).  The claim: for every buffer the vector
    engine returns the packed result of the scalar engine.  On the 5552
    bytes of value 255 of the specification's overflow-boundary test the
    scalar engine returns 4052720524, and the vector engine returns
    798792588 where [size_t] has 64 bits and 3944127372 where it has 32. *)
Theorem C1_vector_differs_on_all_ff :
  Simple.adler32_neon all_ff = 4052720524 /\
  Neon.adler32_neon 64 all_ff = 798792588 /\
  Neon.adler32_neon 32 all_ff = 3944127372 /\
  Neon.adler32_neon 64 all_ff <> Simple.adler32_neon all_ff /\
  Neon.adler32_neon 32 all_ff <> Simple.adler32_neon all_ff.
Proof.
  assert (Hs : Simple.adler32_neon all_ff = 4052720524)
    by (rewrite simple_run; vm_compute; reflexivity).
  assert (Hn : forall w, Neon.adler32_neon w all_ff
    = pack (Neon.fold_block w seed 1415760 14157600)).
  { intros w. rewrite neon_one_block by (rewrite size_all_ff; lia).
    rewrite lanes_all_ff. reflexivity. }
  rewrite Hs, !Hn.
  split; [reflexivity|].
  split; [vm_compute; reflexivity|].
  split; [vm_compute; reflexivity|].
  split; vm_compute; discriminate.
Qed.

(** C2.  For every input the block-batched engine returns the packed result
    of the scalar engine, and that result is the one of the chunking policy
    of section 4.2: chunks of at most 5552 bytes, unreduced accumulation
    inside a chunk, one reduction of both sums at the end of every chunk,
    the final partial one included. *)
Theorem C2_block_equals_scalar (data : list byte) :
  Block.adler32_neon data = Simple.adler32_neon data /\
  Block.adler32_neon data = batched_spec data.
Proof.
  rewrite block_run, simple_run. split; [reflexivity|].
  unfold batched_spec.
  rewrite chunks_run by (apply le_n || apply seed_reduced). reflexivity.
Qed.

(** C3.  For every byte sequence, the empty one included, the scalar engine
    returns the packed Adler-32 value of section 4.1: seed [s1 = 1],
    [s2 = 0], every byte folded left to right with
    [s1 = (s1 + b) mod 65521] then [s2 = (s2 + s1) mod 65521], result
    [(s2 << 16) | s1].  The engine is a total function of the buffer. *)
Theorem C3_scalar_is_recurrence (data : list byte) :
  Simple.adler32_neon data = adler32_spec data.
Proof.
  rewrite simple_run. unfold adler32_spec. change (Sums 1 0) with seed.
  cbn zeta.
  pose proof (run_mod_reduced data seed seed_reduced) as Hr.
  rewrite <- (run_mod_spec data seed seed_reduced).
  rewrite (pack_reduced _ Hr).
  symmetry. apply lor_shiftl_16.
  destruct Hr as [H1 _]. unfold MOD_ADLER in H1.
  change (2 ^ 16) with 65536. lia.
Qed.

(** C4 (refuted by the code).  The claim: bytes that trail the last full
    super-block go through the scalar recurrence, so that every byte is
    folded into the result.  Once a super-block has been processed the
    tail loop is not entered ([neon_long]) and the trailing bytes have no
    part in the result ([neon_ignores_tail]).  On 5553 bytes, a byte 1,
    5551 zero bytes and a trailing byte 1, the vector engine returns what
    it returns on the first 5552 bytes alone, 546832386, for both widths of
    [size_t]; continuing the scalar recurrence over the trailing byte from
    the accumulators the super-block left would give 547028995. *)
Theorem C4_trailing_byte_dropped :
  Neon.adler32_neon 64 one_zeros_one = 546832386 /\
  Neon.adler32_neon 32 one_zeros_one = 546832386 /\
  Neon.adler32_neon 64 one_then_zeros = 546832386 /\
  Neon.adler32_neon 32 one_then_zeros = 546832386 /\
  pack (run mod_step [x01] (Neon.acc (Neon.block_loop 64 one_zeros_one)))
  = 547028995.
Proof.
  assert (H1 : forall w, Neon.adler32_neon w one_zeros_one
    = pack (Neon.fold_block w seed 1 16)).
  { intros w. rewrite neon_one_block by (rewrite size_one_zeros_one; lia).
    rewrite lanes_one_zeros_one. reflexivity. }
  assert (H2 : forall w, Neon.adler32_neon w one_then_zeros
    = pack (Neon.fold_block w seed 1 16)).
  { intros w. rewrite neon_one_block by (rewrite size_one_then_zeros; lia).
    rewrite lanes_one_then_zeros. reflexivity. }
  rewrite !H1, !H2.
  do 4 (split; [vm_compute; reflexivity|]).
  assert (Hacc : Neon.acc (Neon.block_loop 64 one_zeros_one)
                 = Neon.fold_block 64 seed 1 16).
  { rewrite block_loop_once by (rewrite size_one_zeros_one; lia).
    unfold Neon.block_body. cbn [Neon.acc Neon.i].
    rewrite lanes_one_zeros_one. reflexivity. }
  rewrite Hacc. vm_compute. reflexivity.
Qed.

(** C5 (refuted by the code).  The claim: inside a 16-byte chunk the byte
    at position [k] enters [block_s2] with weight [16 - k].  The code
    multiplies each group of four bytes by one constant, so position [k]
    gets [16 - 4 (k / 4)]: on the chunk whose only non-zero byte is a 1 at
    position 1 the lanes of [block_s2] sum to 16, not to 15. *)
Theorem C5_weight_of_position_1 :
  (forall data i0,
      chunk_weighted data i0 = weighted_sum lane_group_weight data i0) /\
  chunk_weighted chunk_e1 0 = 16 /\
  weighted_sum spec_weight chunk_e1 0 = 15.
Proof.
  split; [exact chunk_weights|].
  split; vm_compute; reflexivity.
Qed.

(** C6 (refuted by the code).  The claim: the update closing a super-block
    is [s2 = (s2 + block_s2 + block_len * s1_entering
              - block_s1 * (block_len + 1) / 2) mod 65521]
    with [s1_entering] the value of [s1] before the block.  The code
    assigns [s1] first and multiplies by the new value
    ([fold_block_exact]).  On the super-block made of a byte 1 and 5551
    zero bytes the lane sums are 1 and 16, the code leaves [s1 = 2],
    [s2 = 8344] for both widths of [size_t], the claimed formula gives
    2792, and the formula with the updated [s1] gives the code's 8344.
    The scalar recurrence over the same bytes ends with [s2 = 11104]. *)
Theorem C6_s2_update_on_one_then_zeros :
  let c := Neon.chunk_loop one_then_zeros 0 in
  let sum_s1 := Neon.hsum (Neon.block_s1 c) in
  let sum_s2 := Neon.hsum (Neon.block_s2 c) in
  let v0 := Neon.Vars 0 5552 seed in
  sum_s1 = 1 /\ sum_s2 = 16 /\
  Neon.acc (Neon.block_body 64 one_then_zeros v0) = Sums 2 8344 /\
  Neon.acc (Neon.block_body 32 one_then_zeros v0) = Sums 2 8344 /\
  spec_s2_update (s2 seed) sum_s2 5552 (s1 seed) sum_s1 = 2792 /\
  spec_s2_update (s2 seed) sum_s2 5552 2 sum_s1 = 8344 /\
  run mod_step one_then_zeros seed = Sums 2 11104.
Proof.
  cbn zeta. unfold Neon.block_body. cbn [Neon.acc Neon.i].
  rewrite lanes_one_then_zeros.
  do 6 (split; [vm_compute; reflexivity|]).
  vm_compute; reflexivity.
Qed.

(** C7.  From reduced accumulators, [s1 += byte; s2 += s1] without
    reduction over at most 5552 bytes keeps both exact sums below [2^32],
    so the [uint32_t] accumulators of the code never wrap and hold the
    exact sums.  5552 is the largest such length: from [s1 = s2 = 65520],
    5553 bytes of value 255 drive the exact [s2] to [2^32] or more and the
    32-bit accumulators to a different value.  On exactly 5552 bytes of
    value 255 the exact sums from the seed stay below [2^32] and the
    block-batched engine returns the scalar engine's 4052720524. *)
Theorem C7_overflow_budget :
  (forall (l : list byte) (a : sums),
      reduced a -> Z.of_nat (length l) <= 5552 ->
      let r := run exact_step l a in
      0 <= s1 r < 2 ^ 32 /\ 0 <= s2 r < 2 ^ 32 /\ run raw_step l a = r) /\
  (exists (l : list byte) (a : sums),
      reduced a /\ Z.of_nat (length l) = 5553 /\
      2 ^ 32 <= s2 (run exact_step l a) /\
      run raw_step l a <> run exact_step l a) /\
  (let r := run exact_step all_ff seed in
   s1 r < 2 ^ 32 /\ s2 r < 2 ^ 32 /\ run raw_step all_ff seed = r /\
   Block.adler32_neon all_ff = 4052720524 /\
   Simple.adler32_neon all_ff = 4052720524).
Proof.
  split; [|split].
  - intros l a Ha Hn. cbn zeta.
    destruct (budget_5552 l a Ha Hn) as [B1 B2].
    pose proof Ha as [H1 H2]. unfold MOD_ADLER in H1, H2.
    destruct (run_exact_bound l a) as (G1 & G2 & G3); try lia.
    rewrite run_raw_exact by (assumption || lia).
    change (2 ^ 32) with 4294967296 in *.
    change (2 ^ 33) with 8589934592 in *.
    repeat split; lia.
  - exists (ffs 5553), (Sums 65520 65520).
    split; [unfold reduced, MOD_ADLER; simpl; lia|].
    split; [vm_compute; reflexivity|].
    split; vm_compute; discriminate.
  - cbn zeta. rewrite block_run, simple_run.
    do 4 (split; [vm_compute; reflexivity|]).
    vm_compute; reflexivity.
Qed.

Lemma C7_witness :
  reduced seed /\ Z.of_nat (length wikipedia) <= 5552 /\
  0 <= s1 (run exact_step wikipedia seed) < 2 ^ 32 /\
  0 <= s2 (run exact_step wikipedia seed) < 2 ^ 32 /\
  run raw_step wikipedia seed = run exact_step wikipedia seed.
Proof.
  split; [unfold reduced, seed, MOD_ADLER; simpl; lia|].
  split; [simpl; lia|].
  apply (proj1 C7_overflow_budget wikipedia seed).
  - unfold reduced, seed, MOD_ADLER; simpl; lia.
  - simpl; lia.
Defined.

(** C8.  For each of the three engines and every input, the low 16 bits
    ([s1]) and the high 16 bits ([s2]) of the returned value are at least 0
    and below 65521.  [w] is the width of [size_t]. *)
Theorem C8_result_halves_reduced (w : Z) (data : list byte) :
  halves_reduced (Simple.adler32_neon data) /\
  halves_reduced (Block.adler32_neon data) /\
  halves_reduced (Neon.adler32_neon w data).
Proof.
  assert (Hp : forall a, reduced a -> halves_reduced (pack a)).
  { intros a Ha. unfold halves_reduced.
    destruct (pack_halves a Ha) as [E1 E2]. rewrite E1, E2. exact Ha. }
  rewrite block_run, simple_run.
  destruct (neon_reduced w data) as (a & Ha & Ea). rewrite Ea.
  pose proof (run_mod_reduced data seed seed_reduced).
  repeat split; apply Hp; assumption.
Qed.

(** C9.  On the empty input every engine returns the packed seed, 1. *)
Theorem C9_empty_input :
  Simple.adler32_neon [] = 1 /\
  Block.adler32_neon [] = 1 /\
  (forall w, Neon.adler32_neon w [] = 1).
Proof.
  split; [reflexivity|]. split; [reflexivity|]. intros w. reflexivity.
Qed.

(** C10.  For an input of at least 16 and fewer than 5552 bytes the
    super-block loop of the vector engine leaves the variables as it found
    them ([i = 0], [len] the input length, the seed), every byte goes
    through the scalar tail loop, and the result is the scalar engine's. *)
Theorem C10_vector_below_one_block (w : Z) (data : list byte) :
  16 <= size data -> size data < 5552 ->
  Neon.block_loop w data = Neon.Vars 0 (size data) seed /\
  Neon.adler32_neon w data
  = pack (for_range 0 (size data) (fun i a => mod_step (load data i) a) seed) /\
  Neon.adler32_neon w data = Simple.adler32_neon data.
Proof.
  intros H16 Hlt.
  destruct (block_loop_end w data) as (_ & Hv & _).
  split; [exact (Hv Hlt)|].
  rewrite neon_short by exact Hlt.
  rewrite simple_run, for_range_whole. split; reflexivity.
Qed.

Lemma C10_witness :
  16 <= size (wikipedia ++ wikipedia) /\ size (wikipedia ++ wikipedia) < 5552 /\
  Neon.adler32_neon 64 (wikipedia ++ wikipedia)
  = Simple.adler32_neon (wikipedia ++ wikipedia).
Proof.
  split; [unfold size; simpl; lia|].
  split; [unfold size; simpl; lia|].
  apply (C10_vector_below_one_block 64 (wikipedia ++ wikipedia));
    unfold size; simpl; lia.
Defined.

(** * Further properties of the engines *)

(** ** Closed forms of the scalar recurrence *)

Lemma byte_val_inj (b c : byte) : byte_val b = byte_val c -> b = c.
Proof.
  unfold byte_val. intros H. apply N2Z.inj in H.
  pose proof (Byte.of_to_N b) as Hb. rewrite H, Byte.of_to_N in Hb.
  congruence.
Qed.

Lemma byte_sum_app (l1 l2 : list byte) :
  byte_sum (l1 ++ l2) = byte_sum l1 + byte_sum l2.
Proof.
  unfold byte_sum. induction l1 as [|x l1 IH]; simpl; [reflexivity|].
  rewrite IH. lia.
Qed.

Lemma byte_sum_range (l : list byte) :
  0 <= byte_sum l <= 255 * Z.of_nat (length l).
Proof.
  unfold byte_sum. induction l as [|x l IH]; cbn [fold_right length]; [lia|].
  pose proof (byte_val_range x). lia.
Qed.

Lemma tri_sum_app (l1 l2 : list byte) :
  tri_sum (l1 ++ l2)
  = tri_sum l1 + Z.of_nat (length l2) * byte_sum l1 + tri_sum l2.
Proof.
  induction l1 as [|x l1 IH]; cbn [app tri_sum byte_sum fold_right];
    [lia|].
  fold (byte_sum l1). rewrite IH, length_app, Nat2Z.inj_add. ring.
Qed.

(** The exact sums after a run: [s1] has grown by the sum of the bytes,
    [s2] by [n] times the entering [s1] and the triangular sum. *)
Lemma run_exact_closed (l : list byte) :
  forall a,
    run exact_step l a
    = Sums (s1 a + byte_sum l)
           (s2 a + Z.of_nat (length l) * s1 a + tri_sum l).
Proof.
  unfold run.
  induction l as [|x l IH]; intros a.
  - destruct a. cbn. f_equal; lia.
  - cbn [fold_left]. rewrite IH. unfold exact_step. cbn [s1 s2].
    cbn [byte_sum fold_right tri_sum length]. fold (byte_sum l).
    rewrite (Nat2Z.inj_succ (length l)). f_equal; ring.
Qed.

Lemma run_mod_closed (l : list byte) :
  run mod_step l seed
  = Sums ((1 + byte_sum l) mod 65521)
         ((Z.of_nat (length l) + tri_sum l) mod 65521).
Proof.
  change (run mod_step l seed) with (run mod_step l (reduce seed)).
  rewrite run_mod_exact by (cbn; lia).
  rewrite run_exact_closed. unfold reduce, MOD_ADLER. cbn [s1 s2 seed].
  f_equal; f_equal; ring.
Qed.

Lemma halves_of_pack (a : sums) :
  reduced a -> low16 (pack a) = s1 a /\ high16 (pack a) = s2 a.
Proof. apply pack_halves. Qed.

Lemma simple_halves (data : list byte) :
  low16 (Simple.adler32_neon data) = (1 + byte_sum data) mod 65521 /\
  high16 (Simple.adler32_neon data)
  = (size data + tri_sum data) mod 65521.
Proof.
  rewrite simple_run.
  destruct (halves_of_pack (run mod_step data seed)
              (run_mod_reduced data seed seed_reduced)) as [E1 E2].
  rewrite E1, E2, run_mod_closed. split; reflexivity.
Qed.

(** X1.  The low half of the result of the scalar and of the block-batched
    engine is one plus the sum of the bytes, the high half is the length
    plus the sum in which every byte counts once for itself and once for
    every byte that follows it, both modulo 65521. *)
Theorem checksum_closed_form (data : list byte) :
  low16 (Simple.adler32_neon data) = (1 + byte_sum data) mod 65521 /\
  high16 (Simple.adler32_neon data) = (size data + tri_sum data) mod 65521 /\
  low16 (Block.adler32_neon data) = (1 + byte_sum data) mod 65521 /\
  high16 (Block.adler32_neon data) = (size data + tri_sum data) mod 65521.
Proof.
  rewrite block_run, <- simple_run.
  destruct (simple_halves data) as [H1 H2].
  split; [exact H1|]. split; [exact H2|]. split; [exact H1 | exact H2].
Qed.

(** ** What the scalar checksum tells apart *)

(** X2.  Replacing one byte of a buffer by a different byte changes the
    result of the scalar and of the block-batched engine. *)
Theorem single_byte_change_detected (p q : list byte) (b c : byte) :
  b <> c ->
  Simple.adler32_neon (p ++ b :: q) <> Simple.adler32_neon (p ++ c :: q) /\
  Block.adler32_neon (p ++ b :: q) <> Block.adler32_neon (p ++ c :: q).
Proof.
  intros Hbc.
  assert (H : Simple.adler32_neon (p ++ b :: q)
              <> Simple.adler32_neon (p ++ c :: q)).
  { intros Heq. apply (f_equal low16) in Heq.
    destruct (simple_halves (p ++ b :: q)) as [E1 _].
    destruct (simple_halves (p ++ c :: q)) as [E2 _].
    rewrite E1, E2, !byte_sum_app in Heq.
    cbn [byte_sum fold_right] in Heq. fold (byte_sum q) in Heq.
    pose proof (byte_val_range b). pose proof (byte_val_range c).
    assert (byte_val b <> byte_val c)
      by (intros Hv; apply Hbc, byte_val_inj, Hv).
    revert Heq. Z.div_mod_to_equations. lia. }
  split; [exact H|].
  rewrite !block_run, <- !simple_run. exact H.
Qed.

Lemma single_byte_change_detected_witness :
  x00 <> x01 /\
  Simple.adler32_neon (wikipedia ++ x00 :: wikipedia)
  <> Simple.adler32_neon (wikipedia ++ x01 :: wikipedia).
Proof.
  split; [discriminate|].
  apply (single_byte_change_detected wikipedia wikipedia x00 x01).
  discriminate.
Defined.

(** X3.  Exchanging two neighbouring bytes that differ changes the result
    of the scalar and of the block-batched engine. *)
Theorem adjacent_swap_detected (p q : list byte) (b c : byte) :
  b <> c ->
  Simple.adler32_neon (p ++ b :: c :: q)
  <> Simple.adler32_neon (p ++ c :: b :: q) /\
  Block.adler32_neon (p ++ b :: c :: q)
  <> Block.adler32_neon (p ++ c :: b :: q).
Proof.
  intros Hbc.
  assert (H : Simple.adler32_neon (p ++ b :: c :: q)
              <> Simple.adler32_neon (p ++ c :: b :: q)).
  { intros Heq. apply (f_equal high16) in Heq.
    destruct (simple_halves (p ++ b :: c :: q)) as [_ E1].
    destruct (simple_halves (p ++ c :: b :: q)) as [_ E2].
    rewrite E1, E2, !tri_sum_app in Heq. unfold size in Heq.
    rewrite !length_app in Heq. cbn [tri_sum length] in Heq.
    rewrite !Nat2Z.inj_add, !Nat2Z.inj_succ in Heq.
    pose proof (byte_val_range b). pose proof (byte_val_range c).
    assert (byte_val b <> byte_val c)
      by (intros Hv; apply Hbc, byte_val_inj, Hv).
    set (n := Z.of_nat (length q)) in *.
    set (K := Z.of_nat (length p) + Z.succ (Z.succ n) + tri_sum p
              + Z.succ (Z.succ n) * byte_sum p + tri_sum q
              + (n + 1) * (byte_val b + byte_val c)).
    replace (Z.of_nat (length p) + Z.succ (Z.succ n)
             + (tri_sum p + Z.succ (Z.succ n) * byte_sum p
                + ((Z.succ n + 1) * byte_val b
                   + ((n + 1) * byte_val c + tri_sum q))))
      with (K + byte_val b) in Heq by (unfold K; ring).
    replace (Z.of_nat (length p) + Z.succ (Z.succ n)
             + (tri_sum p + Z.succ (Z.succ n) * byte_sum p
                + ((Z.succ n + 1) * byte_val c
                   + ((n + 1) * byte_val b + tri_sum q))))
      with (K + byte_val c) in Heq by (unfold K; ring).
    revert Heq. generalize K. intros K'. Z.div_mod_to_equations. lia. }
  split; [exact H|].
  rewrite !block_run, <- !simple_run. exact H.
Qed.

Lemma adjacent_swap_detected_witness :
  x00 <> x01 /\
  Simple.adler32_neon (wikipedia ++ x00 :: x01 :: wikipedia)
  <> Simple.adler32_neon (wikipedia ++ x01 :: x00 :: wikipedia).
Proof.
  split; [discriminate|].
  apply (adjacent_swap_detected wikipedia wikipedia x00 x01).
  discriminate.
Defined.

(** ** The checksum of a concatenation *)

Lemma mod_shift (a b k : Z) : a = b + k * 65521 -> a mod 65521 = b mod 65521.
Proof. intros ->. apply Z_mod_plus_full. Qed.

(** X4.  The result on [l1 ++ l2] follows from the results on [l1] and on
    [l2] and the length of [l2]: the low halves add up, less the one seed;
    the high halves add up, plus the length of [l2] times the bytes' part
    of the low half of [l1]. *)
Theorem checksum_of_concatenation (l1 l2 : list byte) :
  let c := Simple.adler32_neon (l1 ++ l2) in
  let c1 := Simple.adler32_neon l1 in
  let c2 := Simple.adler32_neon l2 in
  low16 c = (low16 c1 + low16 c2 + 65520) mod 65521 /\
  high16 c
  = (high16 c1 + high16 c2 + size l2 * (low16 c1 + 65520)) mod 65521.
Proof.
  cbn zeta.
  destruct (simple_halves (l1 ++ l2)) as [L H].
  destruct (simple_halves l1) as [L1 H1].
  destruct (simple_halves l2) as [L2 H2].
  rewrite L, H, L1, H1, L2, H2, byte_sum_app, tri_sum_app.
  unfold size. rewrite length_app, Nat2Z.inj_add.
  set (n1 := Z.of_nat (length l1)). set (n2 := Z.of_nat (length l2)).
  rewrite (Z.mod_eq (1 + byte_sum l1) 65521) by lia.
  rewrite (Z.mod_eq (1 + byte_sum l2) 65521) by lia.
  rewrite (Z.mod_eq (n1 + tri_sum l1) 65521) by lia.
  rewrite (Z.mod_eq (n2 + tri_sum l2) 65521) by lia.
  set (qa := (1 + byte_sum l1) / 65521).
  set (qb := (1 + byte_sum l2) / 65521).
  set (qc := (n1 + tri_sum l1) / 65521).
  set (qd := (n2 + tri_sum l2) / 65521).
  split; symmetry.
  - apply (mod_shift _ _ (1 - qa - qb)). ring.
  - apply (mod_shift _ _ (n2 - qc - qd - n2 * qa)). ring.
Qed.

(** ** The vector engine against the scalar engine *)

(** X5.  On every input shorter than 5552 bytes, the ones shorter than 16
    bytes included, the three engines return the same value. *)
Theorem engines_agree_below_one_block (w : Z) (data : list byte) :
  size data < 5552 ->
  Neon.adler32_neon w data = Simple.adler32_neon data /\
  Block.adler32_neon data = Simple.adler32_neon data.
Proof.
  intros Hlt. rewrite neon_short by exact Hlt.
  rewrite block_run, simple_run. split; reflexivity.
Qed.

Lemma engines_agree_below_one_block_witness :
  size wikipedia < 5552 /\
  Neon.adler32_neon 64 wikipedia = Simple.adler32_neon wikipedia /\
  Block.adler32_neon wikipedia = Simple.adler32_neon wikipedia.
Proof.
  split; [unfold size; simpl; lia|].
  apply (engines_agree_below_one_block 64 wikipedia).
  unfold size; simpl; lia.
Defined.

(** X6.  When the input is a whole number of super-blocks followed by fewer
    than 5552 further bytes, the vector engine returns what it returns on
    the super-blocks alone: the further bytes are never read. *)
Theorem vector_drops_trailing_bytes (w : Z) (blocks tail : list byte) :
  5552 <= size blocks -> size blocks mod 5552 = 0 -> size tail < 5552 ->
  Neon.adler32_neon w (blocks ++ tail) = Neon.adler32_neon w blocks.
Proof.
  intros Hbig Hmod Htail.
  assert (Hsz : size (blocks ++ tail) = size blocks + size tail)
    by (unfold size; rewrite length_app; lia).
  assert (0 <= size tail) by (unfold size; lia).
  rewrite (neon_ignores_tail w (blocks ++ tail)) by lia.
  assert (Hq : 5552 * (size (blocks ++ tail) / 5552) = size blocks).
  { rewrite Hsz. revert Hmod. Z.div_mod_to_equations. lia. }
  rewrite Hq. unfold size at 1.
  rewrite Nat2Z.id, firstn_app, Nat.sub_diag, firstn_all, firstn_O, app_nil_r.
  reflexivity.
Qed.

Lemma vector_drops_trailing_bytes_witness :
  5552 <= size one_then_zeros /\ size one_then_zeros mod 5552 = 0 /\
  size wikipedia < 5552 /\
  Neon.adler32_neon 64 (one_then_zeros ++ wikipedia)
  = Neon.adler32_neon 64 one_then_zeros.
Proof.
  split; [vm_compute; discriminate|].
  split; [vm_compute; reflexivity|].
  split; [vm_compute; reflexivity|].
  apply (vector_drops_trailing_bytes 64 one_then_zeros wikipedia);
    vm_compute; (reflexivity || discriminate).
Defined.

(** ** The lane sums of a super-block *)

Ltac eval_group_weights :=
  unfold lane_group_weight;
  change (0 / 4) with 0; change (1 / 4) with 0; change (2 / 4) with 0;
  change (3 / 4) with 0; change (4 / 4) with 1; change (5 / 4) with 1;
  change (6 / 4) with 1; change (7 / 4) with 1; change (8 / 4) with 2;
  change (9 / 4) with 2; change (10 / 4) with 2; change (11 / 4) with 2;
  change (12 / 4) with 3; change (13 / 4) with 3; change (14 / 4) with 3;
  change (15 / 4) with 3.

(** One chunk on lanes that are far from wrapping: every lane of
    [block_s1] grows by four bytes, every lane of [block_s2] by four
    weighted bytes, and nothing wraps. *)
Lemma chunk_body_sums (data : list byte) (i bl p0 p1 p2 p3 q0 q1 q2 q3 : Z) :
  0 <= p0 < 2 ^ 31 -> 0 <= p1 < 2 ^ 31 -> 0 <= p2 < 2 ^ 31 ->
  0 <= p3 < 2 ^ 31 ->
  0 <= q0 < 2 ^ 31 -> 0 <= q1 < 2 ^ 31 -> 0 <= q2 < 2 ^ 31 ->
  0 <= q3 < 2 ^ 31 ->
  exists p0' p1' p2' p3' q0' q1' q2' q3',
    Neon.chunk_body data (Neon.Lanes i bl [p0; p1; p2; p3] [q0; q1; q2; q3])
    = Neon.Lanes (i + 16) (bl - 16) [p0'; p1'; p2'; p3'] [q0'; q1'; q2'; q3'] /\
    (p0 <= p0' <= p0 + 1020 /\ p1 <= p1' <= p1 + 1020 /\
     p2 <= p2' <= p2 + 1020 /\ p3 <= p3' <= p3 + 1020) /\
    (q0 <= q0' <= q0 + 10200 /\ q1 <= q1' <= q1 + 10200 /\
     q2 <= q2' <= q2 + 10200 /\ q3 <= q3' <= q3 + 10200) /\
    p0' + p1' + p2' + p3'
    = p0 + p1 + p2 + p3 + weighted_sum (fun _ => 1) data i /\
    q0' + q1' + q2' + q3'
    = q0 + q1 + q2 + q3 + weighted_sum lane_group_weight data i.
Proof.
  change (2 ^ 31) with 2147483648. intros.
  unfold weighted_sum. cbn [fold_right]. eval_group_weights.
  unfold Neon.chunk_body, Neon.vld1q_u8, Neon.NEON_CHUNK_SIZE.
  cbn [Neon.block_s1 Neon.block_s2 Neon.idx Neon.block_len map].
  unfold Neon.v_16, Neon.v_12, Neon.v_8, Neon.v_4, Neon.vdupq_n_u32,
    Neon.vmovl_u16, Neon.vmovl_u8, Neon.vget_low_u16, Neon.vget_high_u16,
    Neon.vget_low_u8, Neon.vget_high_u8, Neon.vaddq_u32, Neon.vmulq_u32.
  cbn [firstn skipn Neon.lanewise].
  repeat match goal with
         | |- context [load data ?j] =>
             let H := fresh "Hb" in
             pose proof (load_range data j) as H;
             generalize dependent (load data j); intros
         end.
  unfold u32, wrap. change (2 ^ 32) with 4294967296.
  repeat match goal with
         | |- context [?x mod 4294967296] =>
             rewrite (Z.mod_small x 4294967296) by lia
         end.
  do 8 eexists. split; [reflexivity|].
  repeat split; lia.
Qed.

(** Over a whole super-block no lane wraps: the horizontal sum of
    [block_s1] is the sum of the 5552 bytes, that of [block_s2] their sum
    with the weight of each byte's group of four. *)
Lemma chunk_loop_sums (data : list byte) (i0 : Z) :
  Neon.hsum (Neon.block_s1 (Neon.chunk_loop data i0))
  = block_sum (fun _ => 1) data i0 347 /\
  Neon.hsum (Neon.block_s2 (Neon.chunk_loop data i0))
  = block_sum lane_group_weight data i0 347.
Proof.
  assert (Hinv :
    (fun c =>
       exists (k : nat) p0 p1 p2 p3 q0 q1 q2 q3,
         Neon.idx c = i0 + 16 * Z.of_nat k /\
         Neon.block_len c = 5552 - 16 * Z.of_nat k /\
         Neon.block_s1 c = [p0; p1; p2; p3] /\
         Neon.block_s2 c = [q0; q1; q2; q3] /\
         (0 <= p0 <= 1020 * Z.of_nat k /\ 0 <= p1 <= 1020 * Z.of_nat k /\
          0 <= p2 <= 1020 * Z.of_nat k /\ 0 <= p3 <= 1020 * Z.of_nat k) /\
         (0 <= q0 <= 10200 * Z.of_nat k /\ 0 <= q1 <= 10200 * Z.of_nat k /\
          0 <= q2 <= 10200 * Z.of_nat k /\ 0 <= q3 <= 10200 * Z.of_nat k) /\
         p0 + p1 + p2 + p3 = block_sum (fun _ => 1) data i0 k /\
         q0 + q1 + q2 + q3 = block_sum lane_group_weight data i0 k)
      (Neon.chunk_loop data i0)).
  { unfold Neon.chunk_loop. apply while_inv.
    - intros c (k & p0 & p1 & p2 & p3 & q0 & q1 & q2 & q3 &
                Hi & Hl & Hp & Hq & Bp & Bq & Sp & Sq) Hc.
      apply Z.leb_le in Hc. unfold Neon.NEON_CHUNK_SIZE in Hc.
      destruct c as [ci cl cp cq]. cbn [Neon.idx Neon.block_len
        Neon.block_s1 Neon.block_s2] in *. subst ci cl cp cq.
      destruct (chunk_body_sums data (i0 + 16 * Z.of_nat k)
                  (5552 - 16 * Z.of_nat k) p0 p1 p2 p3 q0 q1 q2 q3)
        as (p0' & p1' & p2' & p3' & q0' & q1' & q2' & q3' &
            E & Bp' & Bq' & Sp' & Sq');
        try (change (2 ^ 31) with 2147483648; lia).
      rewrite E.
      exists (S k), p0', p1', p2', p3', q0', q1', q2', q3'.
      cbn [Neon.idx Neon.block_len Neon.block_s1 Neon.block_s2 block_sum].
      rewrite Nat2Z.inj_succ.
      repeat split; try reflexivity; lia.
    - exists 0%nat, 0, 0, 0, 0, 0, 0, 0, 0.
      unfold Neon.BLOCK_SIZE, Neon.vdupq_n_u32.
      cbn [Neon.idx Neon.block_len Neon.block_s1 Neon.block_s2 block_sum].
      repeat split; try reflexivity; lia. }
  cbv beta in Hinv.
  destruct Hinv as (k & p0 & p1 & p2 & p3 & q0 & q1 & q2 & q3 &
                    Hi & Hl & Hp & Hq & Bp & Bq & Sp & Sq).
  destruct (chunk_loop_end data i0) as [_ Hend].
  assert (Hk : k = 347%nat) by lia. subst k.
  rewrite Hp, Hq, <- Sp, <- Sq.
  unfold Neon.hsum, Neon.vgetq_lane_u32. cbn [nth].
  unfold u32, wrap. change (2 ^ 32) with 4294967296.
  change (Z.of_nat 347) with 347 in *.
  rewrite (Z.mod_small (p0 + p1)) by lia.
  rewrite (Z.mod_small (p0 + p1 + p2)) by lia.
  rewrite (Z.mod_small (p0 + p1 + p2 + p3)) by lia.
  rewrite (Z.mod_small (q0 + q1)) by lia.
  rewrite (Z.mod_small (q0 + q1 + q2)) by lia.
  rewrite (Z.mod_small (q0 + q1 + q2 + q3)) by lia.
  split; reflexivity.
Qed.

(** The body of the super-block loop in terms of the block's two sums. *)
Lemma block_body_sums (w : Z) (data : list byte) (v : Neon.vars) :
  Neon.block_body w data v
  = Neon.Vars (Neon.i v + 5552) (Neon.len v - 5552)
      (Neon.fold_block w (Neon.acc v)
         (block_sum (fun _ => 1) data (Neon.i v) 347)
         (block_sum lane_group_weight data (Neon.i v) 347)).
Proof.
  unfold Neon.block_body, Neon.BLOCK_SIZE.
  destruct (chunk_loop_end data (Neon.i v)) as [Hidx _].
  destruct (chunk_loop_sums data (Neon.i v)) as [H1 H2].
  rewrite Hidx, H1, H2. reflexivity.
Qed.

Lemma fold_left_byte_sum (l : list byte) :
  forall a, fold_left (fun a b => a + byte_val b) l a = a + byte_sum l.
Proof.
  unfold byte_sum. induction l as [|x l IH]; intros a; simpl; [lia|].
  rewrite IH. lia.
Qed.

Lemma chunk_byte_sum (data : list byte) (j : Z) :
  0 <= j -> j + 16 <= size data ->
  weighted_sum (fun _ => 1) data j
  = byte_sum (firstn (Z.to_nat 16) (skipn (Z.to_nat j) data)).
Proof.
  intros Hj Hfit.
  pose proof (for_range_slice (fun x a => a + x) data j 16 0 Hj) as E.
  cbv beta in E. rewrite fold_left_byte_sum in E by lia.
  rewrite Z.add_0_l in E. rewrite <- E by lia.
  unfold weighted_sum.
  do 16 (rewrite for_range_step by lia). rewrite for_range_done by lia.
  cbn -[load]. lia.
Qed.

(** Inside the buffer the unweighted sum of [k] chunks is the sum of the
    bytes of that slice. *)
Lemma block_sum_bytes (data : list byte) (i0 : Z) :
  0 <= i0 ->
  forall k : nat,
    i0 + 16 * Z.of_nat k <= size data ->
    block_sum (fun _ => 1) data i0 k
    = byte_sum (firstn (Z.to_nat (16 * Z.of_nat k))
                       (skipn (Z.to_nat i0) data)).
Proof.
  intros Hi. induction k as [|k IH]; intros Hfit; [reflexivity|].
  cbn [block_sum]. rewrite IH by lia.
  rewrite chunk_byte_sum by lia.
  replace (Z.to_nat (16 * Z.of_nat (S k)))
    with (Z.to_nat (16 * Z.of_nat k) + Z.to_nat 16)%nat by lia.
  rewrite firstn_plus_skipn, byte_sum_app, skipn_skipn.
  replace (Z.to_nat (16 * Z.of_nat k) + Z.to_nat i0)%nat
    with (Z.to_nat (i0 + 16 * Z.of_nat k)) by lia.
  reflexivity.
Qed.

(** The [s1] that leaves the super-block loop is one plus the sum of the
    bytes of all full super-blocks, modulo 65521. *)
Lemma block_loop_low (w : Z) (data : list byte) :
  5552 <= size data ->
  s1 (Neon.acc (Neon.block_loop w data))
  = (1 + byte_sum (firstn (Z.to_nat (5552 * (size data / 5552))) data))
    mod 65521.
Proof.
  intros Hbig.
  destruct (block_loop_end w data) as (_ & _ & Hend).
  destruct (Hend Hbig) as [Hlen _]. clear Hend.
  assert (Hinv :
    (fun v => 0 <= Neon.i v /\ 0 <= Neon.len v /\
              Neon.i v + Neon.len v = size data /\
              Neon.i v mod 5552 = 0 /\
              s1 (Neon.acc v)
              = (1 + byte_sum (firstn (Z.to_nat (Neon.i v)) data)) mod 65521)
      (Neon.block_loop w data)).
  { unfold Neon.block_loop.
    replace (16 <=? size data) with true by (symmetry; apply Z.leb_le; lia).
    apply while_inv.
    - intros v (Hi & Hl & Hsum & Hmod & Hs1) Hc.
      apply Z.leb_le in Hc. unfold Neon.BLOCK_SIZE in Hc.
      rewrite block_body_sums. cbn [Neon.i Neon.len Neon.acc].
      split; [lia|]. split; [lia|]. split; [lia|].
      split; [revert Hmod; Z.div_mod_to_equations; lia|].
      unfold Neon.fold_block. cbn [s1].
      rewrite (block_sum_bytes data (Neon.i v) Hi 347)
        by (change (16 * Z.of_nat 347) with 5552; lia).
      change (16 * Z.of_nat 347) with 5552.
      set (B := firstn (Z.to_nat 5552) (skipn (Z.to_nat (Neon.i v)) data)).
      pose proof (byte_sum_range B) as HB.
      pose proof (firstn_length_Z 5552 (skipn (Z.to_nat (Neon.i v)) data)
                    ltac:(lia)) as HBl.
      fold B in HBl.
      rewrite Hs1. unfold u32, wrap, MOD_ADLER.
      change (2 ^ 32) with 4294967296.
      set (A := byte_sum (firstn (Z.to_nat (Neon.i v)) data)).
      pose proof (Z.mod_pos_bound (1 + A) 65521 ltac:(lia)).
      rewrite (Z.mod_small (_ + byte_sum B) 4294967296) by lia.
      rewrite Z.add_mod_idemp_l by lia.
      replace (Z.to_nat (Neon.i v + 5552))
        with (Z.to_nat (Neon.i v) + Z.to_nat 5552)%nat by lia.
      rewrite firstn_plus_skipn, byte_sum_app. fold A B.
      f_equal. lia.
    - cbn [Neon.i Neon.len Neon.acc]. unfold size.
      split; [lia|]. split; [lia|]. split; [lia|]. split; reflexivity. }
  cbv beta in Hinv. destruct Hinv as (Hi & _ & Hsum & Hmod & Hs1).
  rewrite Hs1. do 4 f_equal.
  revert Hmod. Z.div_mod_to_equations. lia.
Qed.

Lemma neon_low (w : Z) (data : list byte) :
  5552 <= size data ->
  low16 (Neon.adler32_neon w data)
  = (1 + byte_sum (firstn (Z.to_nat (5552 * (size data / 5552))) data))
    mod 65521.
Proof.
  intros Hbig.
  rewrite neon_long by exact Hbig.
  destruct (block_loop_end w data) as (Hr & _).
  destruct (halves_of_pack _ Hr) as [E _]. rewrite E.
  apply block_loop_low, Hbig.
Qed.

(** X7.  On an input of at least 5552 bytes, the low half of the vector
    engine's result is the low half of the scalar engine's result on the
    input cut after its last full super-block: one plus the sum of those
    bytes, modulo 65521. *)
Theorem vector_low_half (w : Z) (data : list byte) :
  5552 <= size data ->
  let full := firstn (Z.to_nat (5552 * (size data / 5552))) data in
  low16 (Neon.adler32_neon w data) = (1 + byte_sum full) mod 65521 /\
  low16 (Neon.adler32_neon w data) = low16 (Simple.adler32_neon full).
Proof.
  intros Hbig. cbn zeta.
  rewrite neon_low by exact Hbig.
  destruct (simple_halves
              (firstn (Z.to_nat (5552 * (size data / 5552))) data))
    as [E' _].
  rewrite E'. split; reflexivity.
Qed.

Lemma vector_low_half_witness :
  5552 <= size one_zeros_one /\
  low16 (Neon.adler32_neon 64 one_zeros_one)
  = low16 (Simple.adler32_neon
             (firstn (Z.to_nat (5552 * (size one_zeros_one / 5552)))
                     one_zeros_one)).
Proof.
  split; [vm_compute; discriminate|].
  apply (vector_low_half 64 one_zeros_one).
  vm_compute; discriminate.
Defined.

(** X8.  On an input whose length is a multiple of 5552, the low halves of
    the results of the vector and of the scalar engine are equal. *)
Theorem vector_low_half_on_whole_blocks (w : Z) (data : list byte) :
  size data mod 5552 = 0 ->
  low16 (Neon.adler32_neon w data) = low16 (Simple.adler32_neon data).
Proof.
  intros Hmod.
  destruct (Z.lt_ge_cases (size data) 5552) as [Hlt | Hbig].
  - rewrite neon_short, simple_run by exact Hlt. reflexivity.
  - rewrite neon_low by exact Hbig.
    replace (5552 * (size data / 5552)) with (size data)
      by (revert Hmod; Z.div_mod_to_equations; lia).
    unfold size. rewrite Nat2Z.id, firstn_all.
    destruct (simple_halves data) as [E _]. rewrite E. reflexivity.
Qed.

Lemma vector_low_half_on_whole_blocks_witness :
  size all_ff mod 5552 = 0 /\
  low16 (Neon.adler32_neon 64 all_ff) = low16 (Simple.adler32_neon all_ff).
Proof.
  split; [vm_compute; reflexivity|].
  apply (vector_low_half_on_whole_blocks 64 all_ff).
  vm_compute; reflexivity.
Defined.

(** ** Inputs the vector engine cannot tell apart *)

(** The super-block loop sees a buffer only through the two sums of each
    full super-block. *)
Lemma block_loop_ext (w : Z) (d1 d2 : list byte) :
  size d1 = size d2 ->
  (forall i0,
      0 <= i0 -> i0 mod 5552 = 0 -> i0 + 5552 <= size d1 ->
      block_sum (fun _ => 1) d1 i0 347 = block_sum (fun _ => 1) d2 i0 347 /\
      block_sum lane_group_weight d1 i0 347
      = block_sum lane_group_weight d2 i0 347) ->
  Neon.block_loop w d1 = Neon.block_loop w d2.
Proof.
  intros Hsz Hsums. unfold Neon.block_loop. rewrite <- Hsz.
  assert (Hlen : length d2 = length d1) by (unfold size in Hsz; lia).
  rewrite Hlen.
  destruct (16 <=? size d1); [|reflexivity].
  apply (while_ext
           (fun v => 0 <= Neon.i v /\ Neon.i v mod 5552 = 0 /\
                     Neon.i v + Neon.len v = size d1)).
  - intros v (Hi & Hmod & Hsum) Hc.
    apply Z.leb_le in Hc. unfold Neon.BLOCK_SIZE in Hc.
    rewrite block_body_sums. cbn [Neon.i Neon.len].
    split; [lia|]. split; [|lia].
    revert Hmod. Z.div_mod_to_equations. lia.
  - intros v (Hi & Hmod & Hsum) Hc.
    apply Z.leb_le in Hc. unfold Neon.BLOCK_SIZE in Hc.
    rewrite !block_body_sums.
    destruct (Hsums (Neon.i v) Hi Hmod ltac:(lia)) as [E1 E2].
    rewrite E1, E2. reflexivity.
  - cbn [Neon.i Neon.len]. split; [lia|]. split; [reflexivity | lia].
Qed.


Lemma load_swap (b c : byte) (rest : list byte) (j : Z) :
  2 <= j -> load (b :: c :: rest) j = load (c :: b :: rest) j.
Proof.
  intros Hj. unfold load.
  destruct (Z.to_nat j) as [|[|n]] eqn:E; [lia | lia | reflexivity].
Qed.

Lemma weighted_sum_swap (weight : Z -> Z) (b c : byte) (rest : list byte)
    (j : Z) :
  weight 0 = weight 1 -> j = 0 \/ 2 <= j ->
  weighted_sum weight (b :: c :: rest) j
  = weighted_sum weight (c :: b :: rest) j.
Proof.
  intros Hw [-> | Hj]; unfold weighted_sum; cbn [fold_right].
  - rewrite !Z.add_0_l.
    change (load (b :: c :: rest) 0) with (byte_val b).
    change (load (b :: c :: rest) 1) with (byte_val c).
    change (load (c :: b :: rest) 0) with (byte_val c).
    change (load (c :: b :: rest) 1) with (byte_val b).
    rewrite !(load_swap b c rest) by lia.
    rewrite Hw. lia.
  - rewrite !(load_swap b c rest) by lia. reflexivity.
Qed.

Lemma block_sum_swap (weight : Z -> Z) (b c : byte) (rest : list byte)
    (i0 : Z) :
  weight 0 = weight 1 -> i0 = 0 \/ 2 <= i0 ->
  forall k : nat,
    block_sum weight (b :: c :: rest) i0 k
    = block_sum weight (c :: b :: rest) i0 k.
Proof.
  intros Hw Hi. induction k as [|k IH]; [reflexivity|].
  cbn [block_sum]. rewrite IH. f_equal.
  apply weighted_sum_swap; [exact Hw|].
  destruct Hi as [-> | Hi]; [|right; lia].
  destruct k; [left; reflexivity | right; lia].
Qed.

(** X10.  On an input of at least 5552 bytes, exchanging the first two
    bytes does not change the result of the vector engine: both bytes
    belong to the same group of four and carry the same weight. *)
Theorem vector_blind_to_swap (w : Z) (b c : byte) (rest : list byte) :
  5550 <= size rest ->
  Neon.adler32_neon w (b :: c :: rest) = Neon.adler32_neon w (c :: b :: rest).
Proof.
  intros Hbig.
  assert (Hsz : size (b :: c :: rest) = size rest + 2)
    by (unfold size; cbn [length]; lia).
  rewrite !neon_long by (unfold size in *; cbn [length]; lia).
  rewrite (block_loop_ext w (b :: c :: rest) (c :: b :: rest));
    [reflexivity | reflexivity |].
  intros i0 Hi Hmod _.
  assert (Hi0 : i0 = 0 \/ 2 <= i0)
    by (revert Hmod; Z.div_mod_to_equations; lia).
  split; apply block_sum_swap; try exact Hi0; reflexivity.
Qed.

Lemma vector_blind_to_swap_witness :
  5550 <= size one_then_zeros /\
  Neon.adler32_neon 64 (x00 :: x01 :: one_then_zeros)
  = Neon.adler32_neon 64 (x01 :: x00 :: one_then_zeros).
Proof.
  split; [vm_compute; discriminate|].
  apply (vector_blind_to_swap 64 x00 x01 one_then_zeros).
  vm_compute; discriminate.
Defined.


(** X11.  Whatever the bytes, the inner loop of a super-block that starts
    at index [i0] ends 5552 bytes further with nothing left of its budget,
    and no lane has wrapped: the lanes of [block_s1] add up to the sum of
    the 5552 bytes, those of [block_s2] to the sum of the bytes weighted
    16, 12, 8 or 4 by their group of four inside their chunk. *)
Theorem super_block_lane_sums (data : list byte) (i0 : Z) :
  let c := Neon.chunk_loop data i0 in
  Neon.idx c = i0 + 5552 /\ Neon.block_len c = 0 /\
  Neon.hsum (Neon.block_s1 c) = block_sum (fun _ => 1) data i0 347 /\
  Neon.hsum (Neon.block_s2 c) = block_sum lane_group_weight data i0 347.
Proof.
  cbn zeta.
  destruct (chunk_loop_end data i0) as [H1 H2].
  destruct (chunk_loop_sums data i0) as [H3 H4].
  split; [exact H1|]. split; [exact H2|]. split; [exact H3 | exact H4].
Qed.
